(** * mock-stock: a shallow embedding of [main.py]

    The service keeps one SQLite table [Stock(id, sku, value, modified_since)],
    fills it with fake rows, mutates a random sample of rows, streams rows as
    CSV and replays mutated rows as webhook calls.

    Python [int] is [Z]; text is [string]; a list is a [list].  The database
    connection, Faker and the [random] module are the state that the handlers
    thread: they live in the record [World], and code that touches them is
    written in the state monad [M].  Random sources are tapes: the n-th draw of
    a source is the n-th cell of its tape.  Code that can raise returns a sum,
    the exception on the left; the network the dispatcher talks to is a
    parameter that says which requests raise. *)

From Stdlib Require Import ZArith List Lia Bool Ascii String Permutation Sorted.
From Stdlib Require Import DecimalString.
Import ListNotations.
Local Open Scope string_scope.
Local Open Scope Z_scope.

(** ** Text *)

(** [str(n)] for a Python [int]. *)
Definition str_int (n : Z) : string := NilZero.string_of_int (Z.to_int n).

(** [",".join(parts)] and friends. *)
Definition join (sep : string) (parts : list string) : string :=
  String.concat sep parts.

(** A ["%0<w>d"] field: the decimal digits of [n], left-padded with zeros. *)
Fixpoint zeros (k : nat) : string :=
  match k with
  | O => ""
  | S k' => "0" ++ zeros k'
  end.

Definition zfill (w : nat) (n : Z) : string :=
  let s := str_int n in zeros (w - String.length s) ++ s.

(** ** datetime *)

(** A naive [datetime.datetime] (Faker returns them without a time zone). *)
Record datetime : Type := mk_datetime {
  year : Z; month : Z; day : Z;
  hour : Z; minute : Z; second : Z; microsecond : Z
}.

(** [datetime.isoformat(sep)]: the fraction is printed only when the
    microsecond field is not zero. *)
Definition isoformat_sep (sep : string) (d : datetime) : string :=
  zfill 4 (year d) ++ "-" ++ zfill 2 (month d) ++ "-" ++ zfill 2 (day d)
  ++ sep
  ++ zfill 2 (hour d) ++ ":" ++ zfill 2 (minute d) ++ ":" ++ zfill 2 (second d)
  ++ (if microsecond d =? 0 then "" else "." ++ zfill 6 (microsecond d)).

Definition isoformat (d : datetime) : string := isoformat_sep "T" d.

(** What [sqlite3] binds for a [datetime] parameter: [isoformat(" ")]. *)
Definition adapt_datetime (d : datetime) : string := isoformat_sep " " d.

(** ** The table *)

(** A stored row of [Stock]; [modified_since] holds the text SQLite keeps. *)
Record StockRow : Type := mk_row {
  id : Z;
  sku : string;
  value : Z;
  modified_since : string
}.

(** A random source: the cells of the tape and the number of draws so far. *)
Record Tape (A : Type) : Type := mk_tape {
  cell : nat -> A;
  drawn : nat
}.
Arguments mk_tape {A} _ _.
Arguments cell {A} _ _.
Arguments drawn {A} _.

Definition peek {A} (t : Tape A) : A := cell t (drawn t).
Definition advance {A} (t : Tape A) : Tape A := mk_tape (cell t) (S (drawn t)).

(** The state behind [app.db], [fake] and [random]:
    - [stock]: the rows of [Stock], in rowid order;
    - [sqlite_seq]: the [SEQ] cell of [SQLITE_SEQUENCE] for [Stock];
    - [ean_src], [date_src]: Faker's draws; [int_src]: the raw draws behind
      [randint]; [sql_src]: SQLite's [RANDOM()]. *)
Record World : Type := mk_world {
  stock : list StockRow;
  sqlite_seq : Z;
  ean_src : Tape string;
  date_src : Tape datetime;
  int_src : Tape Z;
  sql_src : Tape Z
}.

Definition set_stock (rows : list StockRow) (w : World) : World :=
  mk_world rows (sqlite_seq w) (ean_src w) (date_src w) (int_src w) (sql_src w).
Definition set_sqlite_seq (s : Z) (w : World) : World :=
  mk_world (stock w) s (ean_src w) (date_src w) (int_src w) (sql_src w).

(** ** The state monad of the handlers *)

Definition M (A : Type) : Type := World -> A * World.

Definition ret {A} (a : A) : M A := fun w => (a, w).
Definition bind {A B} (m : M A) (k : A -> M B) : M B :=
  fun w => let (a, w') := m w in k a w'.

Declare Scope m_scope.
Delimit Scope m_scope with M.
Notation "x <- m ;; k" := (bind m (fun x => k))
  (at level 61, m at next level, right associativity) : m_scope.
Notation "m ;;; k" := (bind m (fun _ => k))
  (at level 61, right associativity) : m_scope.
Local Open Scope m_scope.

(** [for x in xs: body(x)], collecting what each turn produces. *)
Fixpoint for_each {A B} (body : A -> M B) (xs : list A) : M (list B) :=
  match xs with
  | [] => ret []
  | x :: xs' => b <- body x ;; bs <- for_each body xs' ;; ret (b :: bs)
  end.

(** [for _ in range(n): body()], collecting what each turn produces. *)
Fixpoint repeat_m {B} (body : M B) (n : nat) : M (list B) :=
  match n with
  | O => ret []
  | S n' => b <- body ;; bs <- repeat_m body n' ;; ret (b :: bs)
  end.

(** ** Random draws *)

(** [fake.ean(length=13)]. *)
Definition fake_ean : M string := fun w =>
  (peek (ean_src w),
   mk_world (stock w) (sqlite_seq w) (advance (ean_src w)) (date_src w) (int_src w) (sql_src w)).

(** [fake.date_time_this_month()] and [fake.date_time_between(...)]: both
    are one draw of Faker's datetime source. *)
Definition fake_date_time : M datetime := fun w =>
  (peek (date_src w),
   mk_world (stock w) (sqlite_seq w) (ean_src w) (advance (date_src w)) (int_src w) (sql_src w)).

(** [randint(a, b)]: a raw draw reduced into [a..b]. *)
Definition randint (a b : Z) : M Z := fun w =>
  (a + peek (int_src w) mod (b - a + 1),
   mk_world (stock w) (sqlite_seq w) (ean_src w) (date_src w) (advance (int_src w)) (sql_src w)).

(** SQLite's [RANDOM()]. *)
Definition sql_random : M Z := fun w =>
  (peek (sql_src w),
   mk_world (stock w) (sqlite_seq w) (ean_src w) (date_src w) (int_src w) (advance (sql_src w))).

Definition get_stock : M (list StockRow) := fun w => (stock w, w).

(** ** Python built-ins *)

Inductive exn : Type :=
| ValueError          (* range() arg 3 must not be zero *)
| ZeroDivisionError   (* division by zero *)
| OverflowError       (* a quotient too large for a float; an int too large
                         for SQLite *)
| RequestError.       (* what client.post raises: a transport or protocol
                         error of httpx *)

(** The number of items of [range(start, stop, step)] for a non-zero step. *)
Definition range_len (start stop step : Z) : nat :=
  if (0 <? step) && (start <? stop)
  then Z.to_nat (1 + (stop - 1 - start) / step)
  else if (step <? 0) && (stop <? start)
  then Z.to_nat (1 + (start - 1 - stop) / (- step))
  else O.

(** [range(start, stop, step)]. *)
Definition py_range (start stop step : Z) : exn + list Z :=
  if step =? 0 then inl ValueError
  else inr (map (fun k => start + Z.of_nat k * step)
                (List.seq 0 (range_len start stop step))).

(** [range(stop)]. *)
Definition py_range1 (stop : Z) : list Z :=
  map Z.of_nat (List.seq 0 (Z.to_nat stop)).

(** An index of a slice brought into [0..len]. *)
Definition slice_index (len i : Z) : nat :=
  Z.to_nat (Z.min len (Z.max 0 (if i <? 0 then i + len else i))).

(** [l[i:j]]. *)
Definition py_slice {A} (l : list A) (i j : Z) : list A :=
  let len := Z.of_nat (List.length l) in
  let lo := slice_index len i in
  let hi := slice_index len j in
  firstn (hi - lo) (skipn lo l).

(** A finite Python float, a double:
    [(-1)^negative * mantissa * 2^exponent]. *)
Record float : Type := mk_float {
  negative : bool;
  mantissa : Z;
  exponent : Z
}.

(** The integer nearest to [n / d], ties to the even one ([d > 0]). *)
Definition round_half_even (n d : Z) : Z :=
  let q := n / d in
  let r := n mod d in
  if 2 * r <? d then q
  else if d <? 2 * r then q + 1
  else if Z.even q then q else q + 1.

(** [floor(log2(n / d))] for [n, d > 0]. *)
Definition log2_quotient (n d : Z) : Z :=
  let k := Z.log2 n - Z.log2 d in
  if (if 0 <=? k then d * 2 ^ k <=? n else d <=? n * 2 ^ (- k))
  then k else k - 1.

(** [a / b] on two Python [int]: the double nearest to the quotient, with
    53 bits of mantissa above the exponent [-1074]; it raises when [b] is
    zero and when the quotient is beyond the range of a double. *)
Definition truediv (a b : Z) : exn + float :=
  if b =? 0 then inl ZeroDivisionError
  else if a =? 0 then inr (mk_float (b <? 0) 0 0)
  else
    let n := Z.abs a in
    let d := Z.abs b in
    let e := Z.max (log2_quotient n d - 52) (- 1074) in
    let m := if 0 <=? e then round_half_even n (d * 2 ^ e)
             else round_half_even (n * 2 ^ (- e)) d in
    if 2 ^ 1024 <=? m * 2 ^ e then inl OverflowError
    else inr (mk_float (xorb (a <? 0) (b <? 0)) m e).

(** [math.ceil(x)] of a float. *)
Definition math_ceil (x : float) : Z :=
  let m := mantissa x in
  let e := exponent x in
  if 0 <=? e then (if negative x then - (m * 2 ^ e) else m * 2 ^ e)
  else if negative x then - (m / 2 ^ (- e))
  else - ((- m) / 2 ^ (- e)).

(** The integers SQLite can bind: 64 bits, signed. *)
Definition sqlite_int (n : Z) : bool := (- 2 ^ 63 <=? n) && (n <? 2 ^ 63).

(** ** The Webhook Dispatcher: [send_requests] *)

(** The tuples [change_stock_randomly] returns:
    [(sku, value, date, stock_id)], read as [s[0]], ..., [s[3]]. *)
Definition StockTuple : Type := (string * Z * datetime * Z)%type.

Definition s0 (s : StockTuple) : string := fst (fst (fst s)).
Definition s1 (s : StockTuple) : Z := snd (fst (fst s)).
Definition s2 (s : StockTuple) : datetime := snd (fst s).
Definition s3 (s : StockTuple) : Z := snd s.

Inductive json : Type :=
| JInt (n : Z)
| JStr (s : string).

(** The dict sent as the JSON body, keys in the order they are written. *)
Definition data_of (s : StockTuple) : list (string * json) :=
  [ ("id", JInt (s3 s));
    ("sku", JStr (s0 s));
    ("value", JInt (s1 s));
    ("modified_since", JStr (isoformat (s2 s))) ].

(** The list comprehension
    [[stocks_to_update[i : i + concurrency]
      for i in range(0, len(stocks_to_update), concurrency)]]. *)
Definition grouped_by_concurrency (stocks_to_update : list StockTuple)
    (concurrency : Z) : exn + list (list StockTuple) :=
  match py_range 0 (Z.of_nat (List.length stocks_to_update)) concurrency with
  | inl e => inl e
  | inr starts =>
      inr (map (fun i => py_slice stocks_to_update i (i + concurrency)) starts)
  end.

(** A call [client.post(url, json=body)]. *)
Definition Request : Type := (string * list (string * json))%type.

(** The network a run of the dispatcher meets: [net n r] says whether the
    [n]-th [client.post] of the run, made for the request [r], raises.  A
    response with an error status is a response: it does not raise. *)
Definition Network : Type := nat -> Request -> bool.

(** Whether [asyncio.gather] over the requests [rs] raises, when [issued]
    requests have been made before: it does as soon as one of them does. *)
Definition gather (net : Network) (issued : nat) (rs : list Request)
    : option exn :=
  if existsb (fun ir => net (issued + fst ir)%nat (snd ir))
             (combine (List.seq 0 (List.length rs)) rs)
  then Some RequestError
  else None.

Section Dispatcher.

(** The type of the [sleep] argument (a Python float). *)
Context {Delay : Type}.

(** What a run of the dispatcher does, in order: [Gather rs] is
    the [await] of [asyncio.gather] over the requests [rs] of one group, all
    awaited before the run goes on; [Sleep d] is [await asyncio.sleep(d)]. *)
Inductive event : Type :=
| Gather (rs : list Request)
| Sleep (d : Delay).

(** [for group in grouped_by_concurrency]: the events, the exception that
    ended the loop if one did, and the number of requests made so far. *)
Fixpoint send_groups (net : Network) (webhook_url : string) (sleep : Delay)
    (issued : nat) (groups : list (list StockTuple))
    : list event * option exn * nat :=
  match groups with
  | [] => ([], None, issued)
  | group :: rest =>
      let r := map (fun s => (webhook_url, data_of s)) group in
      match gather net issued r with
      | Some e => ([Gather r], Some e, (issued + List.length r)%nat)
      | None =>
          let '(tr, raised, n) :=
            send_groups net webhook_url sleep (issued + List.length r)%nat rest in
          (Gather r :: Sleep sleep :: tr, raised, n)
      end
  end.

(** [for i in range(duplications_number + 1)]. *)
Fixpoint send_passes (net : Network) (webhook_url : string) (sleep : Delay)
    (issued : nat) (groups : list (list StockTuple)) (passes : list Z)
    : list event * option exn :=
  match passes with
  | [] => ([], None)
  | _ :: more =>
      match send_groups net webhook_url sleep issued groups with
      | (tr, Some e, _) => (tr, Some e)
      | (tr, None, n) =>
          let '(tr', raised) :=
            send_passes net webhook_url sleep n groups more in
          ((tr ++ tr')%list, raised)
      end
  end.

(** A run: its events, and the exception it ended with if it raised. *)
Definition send_requests (net : Network) (webhook_url : string)
    (stocks_to_update : list StockTuple) (concurrency : Z) (sleep : Delay)
    (duplications_number : Z) : list event * option exn :=
  match grouped_by_concurrency stocks_to_update concurrency with
  | inl e => ([], Some e)
  | inr groups =>
      send_passes net webhook_url sleep 0 groups
                  (py_range1 (duplications_number + 1))
  end.



End Dispatcher.
Arguments event : clear implicits.

(** ** The storage layer *)

(** The largest rowid of the table ([0] when it is empty). *)
Definition max_rowid (rows : list StockRow) : Z :=
  fold_right (fun r m => Z.max (id r) m) 0 rows.

(** The tuples the Generator makes: [(sku, value, date)]. *)
Definition GenTuple : Type := (string * Z * datetime)%type.

(** [INSERT INTO Stock VALUES (null, ?, ?, ?)]: [AUTOINCREMENT] gives the
    row one more than the largest rowid the table has ever had. *)
Definition insert_row (w : World) (t : GenTuple) : World :=
  let '(sku, value, date) := t in
  let rowid := Z.max (sqlite_seq w) (max_rowid (stock w)) + 1 in
  set_sqlite_seq rowid
    (set_stock (stock w ++ [mk_row rowid sku value (adapt_datetime date)])%list w).

Definition executemany_insert (data : list GenTuple) : M unit :=
  fun w => (tt, fold_left insert_row data w).

(** [UPDATE Stock SET sku=?, value=?, modified_since=? WHERE id=?]. *)
Definition update_one (r : StockRow) (t : StockTuple) : StockRow :=
  if id r =? s3 t
  then mk_row (id r) (s0 t) (s1 t) (adapt_datetime (s2 t))
  else r.

Definition update_row (rows : list StockRow) (t : StockTuple) : list StockRow :=
  map (fun r => update_one r t) rows.

Definition executemany_update (data : list StockTuple) : M unit :=
  fun w => (tt, set_stock (fold_left update_row data (stock w)) w).

(** [ORDER BY]: a stable insertion sort by [le]. *)
Fixpoint insert_by {A} (le : A -> A -> bool) (x : A) (l : list A) : list A :=
  match l with
  | [] => [x]
  | y :: l' => if le x y then x :: l else y :: insert_by le x l'
  end.

Definition order_by {A} (le : A -> A -> bool) (l : list A) : list A :=
  fold_right (insert_by le) [] l.

(** [LIMIT n]: a negative [n] puts no bound on the rows returned. *)
Definition sql_limit {A} (n : Z) (l : list A) : list A :=
  if n <? 0 then l else firstn (Z.to_nat n) l.

(** [SELECT id, sku FROM Stock ORDER BY RANDOM() LIMIT ?]: binding an
    [int] that SQLite cannot hold raises before a row is read. *)
Definition select_random (amount : Z) : M (exn + list (Z * string)) :=
  if sqlite_int amount
  then
    rows <- get_stock ;;
    keyed <- for_each (fun r => k <- sql_random ;; ret (k, r)) rows ;;
    ret (inr (map (fun kr => (id (snd kr), sku (snd kr)))
                  (sql_limit amount
                     (order_by (fun a b => fst a <=? fst b) keyed))))
  else ret (inl OverflowError).

(** [SELECT id, sku, value, modified_since FROM Stock ORDER BY modified_since]:
    the column holds text, compared byte by byte. *)
Definition select_by_modified_since : M (list StockRow) :=
  rows <- get_stock ;;
  ret (order_by (fun a b => String.leb (modified_since a) (modified_since b)) rows).

(** ** The Record Generator: [generate_random_data] *)

(** One turn of [for j in range(_offset)]: the tuple appended to [data] and
    the tuple yielded. *)
Definition generate_one : M (GenTuple * GenTuple) :=
  date <- fake_date_time ;;
  sku <- fake_ean ;;
  appended <- randint 0 200 ;;
  yielded <- randint 0 200 ;;
  ret ((sku, appended, date), (sku, yielded, date)).

(** One turn of [for i in range(ii)]: the tuples it yields. *)
Definition generate_batch (ii left offset i : Z) : M (list GenTuple) :=
  let _offset := if i + 1 =? ii then left else offset in
  turns <- repeat_m generate_one (Z.to_nat _offset) ;;
  executemany_insert (map fst turns) ;;;
  ret (map snd turns).

(** The tuples the generator yields, in order, and the exception that ended
    it if it raised: the division of its first line can. *)
Definition generate_random_data (amount offset : Z)
    : M (list GenTuple * option exn) :=
  match truediv amount offset with
  | inl e => ret ([], Some e)
  | inr quotient =>
      let ii := math_ceil quotient in
      let left := amount mod offset in
      batches <- for_each (generate_batch ii left offset) (py_range1 ii) ;;
      ret (List.concat batches, None)
  end.

(** ** The Mutator: [change_stock_randomly] *)

Definition change_one (row : Z * string) : M StockTuple :=
  let '(stock_id, sku) := row in
  date <- fake_date_time ;;
  value <- randint 0 200 ;;
  ret (sku, value, date, stock_id).

Definition change_stock_randomly (amount : Z) : M (exn + list StockTuple) :=
  selected <- select_random amount ;;
  match selected with
  | inl e => ret (inl e)
  | inr selected =>
      data <- for_each change_one selected ;;
      executemany_update data ;;;
      ret (inr data)
  end.

(** ** The endpoints *)

Definition nl : string := String (ascii_of_nat 10) EmptyString.

Definition csv_header : string := "id,sku,value,modified_since" ++ nl.

(** A [StreamingResponse]: the chunks of [body] are what the generator
    passed to it yields, in order; [aborted] is the exception that broke the
    stream off, if one did. *)
Record Response : Type := mk_response {
  status_code : Z;
  media_type : string;
  body : list string;
  aborted : option exn
}.

Definition StreamingResponse (chunks : list string) : Response :=
  mk_response 200 "text/csv" chunks None.

(** What the client is answered: the status of the response the handler
    returns, or [500] when the handler raises. *)
Definition http_status {A} (result : exn + (Response * A)) : Z :=
  match result with
  | inl _ => 500
  | inr (response, _) => status_code response
  end.

(** [GET /]. *)
Definition csv_of_row (row : StockRow) : string :=
  join "," [str_int (id row); sku row; str_int (value row); modified_since row]
  ++ nl.

Definition read_root : M Response :=
  rows <- select_by_modified_since ;;
  ret (StreamingResponse (csv_header :: map csv_of_row rows)).

(** [POST /trigger/]. *)
Definition csv_of_stock (s : StockTuple) : string :=
  join "," [str_int (s3 s); s0 s; str_int (s1 s); isoformat (s2 s)] ++ nl.

(** A call of [send_requests] handed to [background_tasks.add_task]; it runs
    after the response has been sent. *)
Record BackgroundTask (Delay : Type) : Type := mk_task {
  task_url : string;
  task_stocks : list StockTuple;
  task_concurrency : Z;
  task_sleep : Delay;
  task_duplicate : Z
}.
Arguments mk_task {Delay} _ _ _ _ _.
Arguments task_url {Delay} _.
Arguments task_stocks {Delay} _.
Arguments task_concurrency {Delay} _.
Arguments task_sleep {Delay} _.
Arguments task_duplicate {Delay} _.

Definition run_task {Delay} (net : Network) (t : BackgroundTask Delay)
    : list (event Delay) * option exn :=
  send_requests net (task_url t) (task_stocks t) (task_concurrency t)
                (task_sleep t) (task_duplicate t).

(** [if webhook_url:] holds for a string that is not empty. *)
Definition truthy (webhook_url : option string) : bool :=
  match webhook_url with
  | None => false
  | Some u => negb (u =? "")%string
  end.

Definition stock_trigger {Delay} (number_to_change : Z)
    (webhook_url : option string) (concurrency : Z) (sleep : Delay)
    (duplicate : Z) : M (exn + Response * option (BackgroundTask Delay)) :=
  changed <- change_stock_randomly number_to_change ;;
  match changed with
  | inl e => ret (inl e)
  | inr stocks =>
      let task :=
        match webhook_url with
        | Some u =>
            if truthy webhook_url
            then Some (mk_task u stocks concurrency sleep duplicate)
            else None
        | None => None
        end in
      ret (inr (StreamingResponse (csv_header :: map csv_of_stock stocks), task))
  end.

(** [POST /initialize-stock/]. *)

(** [DELETE FROM Stock], [CREATE TABLE IF NOT EXISTS] on the table that is
    there, and [UPDATE SQLITE_SEQUENCE SET SEQ=0]. *)
Definition reset_stock : M unit :=
  fun w => (tt, set_sqlite_seq 0 (set_stock [] w)).

(** The lines of [stream_data], with the counter [_id]. *)
Fixpoint stream_lines (_id : Z) (yielded : list GenTuple) : list string :=
  match yielded with
  | [] => []
  | s :: rest =>
      let '(sku, value, date) := s in
      (join "," [str_int _id; sku; str_int value; isoformat date] ++ nl)
        :: stream_lines (_id + 1) rest
  end.

Definition initialize_stock (amount : Z) : M Response :=
  reset_stock ;;;
  generator <- generate_random_data amount 1000 ;;
  ret (mk_response 200 "text/csv"
         (csv_header :: stream_lines 1 (fst generator)) (snd generator)).

(** [POST /receiver/]. *)
Definition receiver (content : string) (status_code : Z) : M (string * Z) :=
  ret (content, status_code).

(** ** Vocabulary of the statements *)

(** The ceiling of [a / b], exactly ([b > 0]). *)
Definition ceil_div (a b : Z) : Z := - ((- a) / b).

(** The amounts on which [math.ceil(amount / 1000)] is the exact ceiling:
    below [2^44 * 1000] in size, a double keeps the thousandths. *)
Definition exact_amount (amount : Z) : Prop := Z.abs amount < 2 ^ 44 * 1000.

(** A network on which no request raises. *)
Definition quiet (net : Network) : Prop := forall n r, net n r = false.

Definition quiet_network : Network := fun _ _ => false.






(** The order [ORDER BY RANDOM()] gives the rows when the draws of
    [RANDOM()], one per row in rowid order, are [keys]. *)
Definition shuffled_by (keys : list Z) (rows : list StockRow) : list StockRow :=
  map snd (order_by (fun a b => fst a <=? fst b) (combine keys rows)).

(** The draws of [RANDOM()] a [SELECT] over the table of [w] makes. *)
Definition random_keys (w : World) : list Z :=
  map (cell (sql_src w))
      (List.seq (drawn (sql_src w)) (List.length (stock w))).

(** The row an update tuple writes. *)
Definition row_of (t : StockTuple) : StockRow :=
  mk_row (s3 t) (s0 t) (s1 t) (adapt_datetime (s2 t)).

(** A table filled since the last reset: ids [1..n], and the sequence at [n]. *)
Definition filled (n : nat) (w : World) : Prop :=
  map id (stock w) = map Z.of_nat (List.seq 1 n) /\ sqlite_seq w = Z.of_nat n.

(** The number of turns of the inner loop of the generator in turn [i] of
    its outer loop. *)
Definition turns_of (ii left offset i : Z) : nat :=
  Z.to_nat (if i + 1 =? ii then left else offset).

(** Sample data for the closed examples. *)
Definition sample_date (n : nat) : datetime :=
  mk_datetime 2024 1 (28 - Z.of_nat n) 10 30 0 0.

Definition sample_stocks : list StockTuple :=
  [ ("4006381333931", 17, sample_date 0, 1);
    ("5901234123457", 200, sample_date 1, 2);
    ("9780201379624", 0, sample_date 2, 3) ].

(** A network on which the first request of a run raises. *)
Definition failing_first : Network := fun n _ => (n =? 0)%nat.

(** A world with an empty table and fixed tapes. *)
Definition sample_world : World :=
  mk_world [] 0
    (mk_tape (fun n => str_int (4006381333931 + Z.of_nat n)) 0)
    (mk_tape sample_date 0)
    (mk_tape (fun n => 5 + 2 * Z.of_nat n) 0)
    (mk_tape (fun n => Z.of_nat ((n * 7) mod 5)) 0).

(** The sample world after [POST /initialize-stock/] with [amount=5]. *)
Definition sample_world_5 : World := snd (initialize_stock 5 sample_world).


(** The rowid the storage layer counts on from: the largest the table has
    ever had. *)
Definition last_rowid (w : World) : Z :=
  Z.max (sqlite_seq w) (max_rowid (stock w)).

(** A tape after [n] more draws. *)
Definition skip {A} (n : nat) (t : Tape A) : Tape A :=
  mk_tape (cell t) (n + drawn t).

(** The tuple that turn [j] of the generator's inner loop appends to [data],
    and the tuple it yields, counting the turns from the world [w]. *)
Definition appended_at (w : World) (j : nat) : GenTuple :=
  (cell (ean_src w) (j + drawn (ean_src w)),
   cell (int_src w) (2 * j + drawn (int_src w)) mod 201,
   cell (date_src w) (j + drawn (date_src w))).

Definition yielded_at (w : World) (j : nat) : GenTuple :=
  (cell (ean_src w) (j + drawn (ean_src w)),
   cell (int_src w) (S (2 * j + drawn (int_src w))) mod 201,
   cell (date_src w) (j + drawn (date_src w))).

(** The row an [INSERT] stores for a tuple. *)
Definition stored_row (rowid : Z) (t : GenTuple) : StockRow :=
  mk_row rowid (fst (fst t)) (snd (fst t)) (adapt_datetime (snd t)).

(** The [j]-th row the generator adds to the table of [w]. *)
Definition generated_row (w : World) (j : nat) : StockRow :=
  stored_row (last_rowid w + 1 + Z.of_nat j) (appended_at w j).

(** The number of rows [generate_random_data] makes. *)
Definition generated (amount offset : Z) : nat :=
  match truediv amount offset with
  | inl _ => O
  | inr quotient =>
      list_sum (map (turns_of (math_ceil quotient) (amount mod offset) offset)
                    (py_range1 (math_ceil quotient)))
  end.

(** The world [w] after the generator has made [n] rows. *)
Definition grown (w : World) (n : nat) (w' : World) : Prop :=
  stock w' = (stock w ++ map (generated_row w) (List.seq 0 n))%list /\
  last_rowid w' = last_rowid w + Z.of_nat n /\
  ean_src w' = skip n (ean_src w) /\
  int_src w' = skip (2 * n) (int_src w) /\
  date_src w' = skip n (date_src w) /\
  sql_src w' = sql_src w.

(** The states the service can be in: what [POST /initialize-stock/] leaves,
    and what the other endpoints make of such a state. *)
Inductive reachable : World -> Prop :=
| reach_initialize (amount : Z) (w : World) :
    reachable (snd (initialize_stock amount w))
| reach_trigger (Delay : Type) (K : Z) (url : option string) (C : Z)
    (D : Delay) (R : Z) (w : World) :
    reachable w -> reachable (snd (stock_trigger K url C D R w))
| reach_read (w : World) :
    reachable w -> reachable (snd (read_root w))
| reach_receiver (content : string) (code : Z) (w : World) :
    reachable w -> reachable (snd (receiver content code w)).

(** ** The orders a shuffle can give *)

(** Each element of a list, with the rest of the list. *)
Fixpoint selections (l : list nat) : list (nat * list nat) :=
  match l with
  | [] => []
  | x :: l' => (x, l') :: map (fun yr => (fst yr, x :: snd yr)) (selections l')
  end.

Fixpoint orders_of (fuel : nat) (l : list nat) : list (list nat) :=
  match fuel with
  | O => [[]]
  | S fuel' =>
      match l with
      | [] => [[]]
      | _ => flat_map (fun xr => map (cons (fst xr)) (orders_of fuel' (snd xr)))
                      (selections l)
      end
  end.

(** The [n!] orders of the row positions [0..n-1]: the rankings the draws
    of [RANDOM()] can give [n] rows. *)
Definition orders (n : nat) : list (list nat) := orders_of n (List.seq 0 n).

Fixpoint position (i : nat) (l : list nat) : nat :=
  match l with
  | [] => O
  | x :: l' => if (x =? i)%nat then O else S (position i l')
  end.

(** Draws of [RANDOM()] that rank the rows in the order [order]: the row at
    position [i] of the table draws its place in [order]. *)
Definition keys_for (order : list nat) : list Z :=
  map (fun i => Z.of_nat (position i order)) (List.seq 0 (List.length order)).

Definition row_at (rows : list StockRow) (i : nat) : StockRow :=
  nth i rows (mk_row 0 "" 0 "").

Fixpoint starts_with (pick order : list nat) : bool :=
  match pick, order with
  | [], _ => true
  | a :: pick', b :: order' => (a =? b)%nat && starts_with pick' order'
  | _ :: _, [] => false
  end.

Fixpoint same_ids (a b : list Z) : bool :=
  match a, b with
  | [], [] => true
  | x :: a', y :: b' => (x =? y) && same_ids a' b'
  | _, _ => false
  end.

(** Whether, with the rows ranked in the order [order], the [SELECT] of the
    Mutator picks the rows at the positions [pick], in this order. *)
Definition selects (K : Z) (rows : list StockRow) (pick order : list nat) : bool :=
  same_ids (map id (sql_limit K (shuffled_by (keys_for order) rows)))
           (map (fun i => id (row_at rows i)) pick).

(* ================================================================== *)
(** * Theorems *)


(** ** Lists cut into consecutive pieces *)

Section Pieces.
Context {A : Type}.
Implicit Types (l : list A) (c k m : nat).




End Pieces.

Lemma ceil_div_bounds a b :
  0 < b -> (ceil_div a b - 1) * b < a <= ceil_div a b * b.
Proof.
  intros Hb. unfold ceil_div.
  pose proof (Z.div_mod (- a) b ltac:(lia)) as E.
  pose proof (Z.mod_pos_bound (- a) b Hb) as B.
  nia.
Qed.

Lemma ceil_div_unique a b q :
  0 < b -> (q - 1) * b < a <= q * b -> ceil_div a b = q.
Proof.
  intros Hb Hq. pose proof (ceil_div_bounds a b Hb). nia.
Qed.


(** ** The groups of the dispatcher *)




(** ** The trace of a dispatcher run *)

Lemma flat_map_const {A B} (x : list B) (l : list A) :
  flat_map (fun _ => x) l = List.concat (repeat x (List.length l)).
Proof. induction l as [|a l IH]; simpl; [reflexivity | now rewrite IH]. Qed.



Lemma gather_quiet net issued rs : quiet net -> gather net issued rs = None.
Proof.
  intros Hq. unfold gather.
  replace (existsb _ _) with false; [reflexivity|].
  symmetry. apply not_true_is_false. intros (ir & _ & H)%existsb_exists.
  now rewrite Hq in H.
Qed.


Section Trace.
Context {Delay : Type}.
Variables (net : Network) (webhook_url : string) (sleep : Delay).












End Trace.
(** ** The dispatcher's claims *)








(** ** More on the dispatcher *)

Lemma grouped_by_concurrency_zero (L : list StockTuple) :
  grouped_by_concurrency L 0 = inl ValueError.
Proof. reflexivity. Qed.

(** A zero step makes [range] raise before a single request is made. *)
Lemma send_requests_zero_concurrency {Delay : Type} (net : Network)
    (webhook_url : string) (L : list StockTuple) (D : Delay) (R : Z) :
  send_requests net webhook_url L 0 D R = ([], Some ValueError).
Proof. reflexivity. Qed.

Lemma send_passes_no_groups {Delay : Type} (net : Network)
    (webhook_url : string) (D : Delay) (issued : nat) (passes : list Z) :
  send_passes net webhook_url D issued [] passes = ([], None).
Proof.
  induction passes as [|i passes IH]; [reflexivity|].
  cbn [send_passes send_groups]. now rewrite IH.
Qed.

(** X4.  A run has nothing to do, and ends at once without a request or a
    delay, whatever the network, when the record list is empty, when the
    concurrency is negative or when the duplication count is negative. *)
Theorem send_requests_nothing_to_do {Delay : Type} (net : Network)
    (webhook_url : string) (L : list StockTuple) (C : Z) (D : Delay) (R : Z) :
  C <> 0 ->
  L = [] \/ C < 0 \/ R < 0 ->
  send_requests net webhook_url L C D R = ([], None).
Proof.
  intros HC H. unfold send_requests, grouped_by_concurrency, py_range.
  destruct (Z.eqb_spec C 0) as [E|_]; [contradiction|].
  destruct H as [-> | [Hneg | Hneg]].
  - unfold range_len. cbn [List.length Z.of_nat].
    rewrite Z.ltb_irrefl, !andb_false_r. cbn [map List.seq].
    apply send_passes_no_groups.
  - unfold range_len.
    destruct (Z.ltb_spec 0 C); [lia|].
    destruct (Z.ltb_spec (Z.of_nat (List.length L)) 0); [lia|].
    rewrite !andb_false_r. cbn [andb map List.seq].
    apply send_passes_no_groups.
  - unfold py_range1. now replace (Z.to_nat (R + 1)) with O by lia.
Qed.

Lemma send_requests_nothing_to_do_witness :
  send_requests failing_first "http://hook.test/" sample_stocks (-2) 5 3
  = ([], None) /\
  send_requests failing_first "http://hook.test/" sample_stocks 2 5 (-1)
  = ([], None).
Proof.
  split.
  - apply send_requests_nothing_to_do; [lia | right; left; lia].
  - apply send_requests_nothing_to_do; [lia | right; right; lia].
Defined.






Section Sleeps.
Context {Delay : Type}.
Variables (webhook_url : string) (sleep : Delay).




End Sleeps.



(** ** [ORDER BY] *)

Section OrderBy.
Context {A : Type} (le : A -> A -> bool).

Lemma insert_by_perm x l : Permutation (insert_by le x l) (x :: l).
Proof.
  induction l as [|y l IH]; simpl; [reflexivity|].
  destruct (le x y); [reflexivity|].
  rewrite IH. apply perm_swap.
Qed.

Lemma order_by_perm l : Permutation (order_by le l) l.
Proof.
  induction l as [|x l IH]; simpl; [constructor|].
  now rewrite insert_by_perm, IH.
Qed.

Lemma order_by_length l : List.length (order_by le l) = List.length l.
Proof. apply Permutation_length, order_by_perm. Qed.

Hypothesis le_total : forall a b, le a b = true \/ le b a = true.
Hypothesis le_trans : forall a b c, le a b = true -> le b c = true -> le a c = true.

Local Notation leP := (fun a b => le a b = true).

Lemma insert_by_sorted x l :
  StronglySorted leP l -> StronglySorted leP (insert_by le x l).
Proof.
  induction 1 as [|y l Hs IH Hy]; simpl.
  - repeat constructor.
  - destruct (le x y) eqn:E.
    + constructor; [now constructor|].
      constructor; [exact E|].
      eapply Forall_impl; [|exact Hy]. intros z Hz. now apply (le_trans x y z).
    + constructor; [exact IH|].
      assert (Hyx : leP y x) by (destruct (le_total x y); [congruence | assumption]).
      apply Forall_forall. intros z Hz.
      apply (Permutation_in _ (insert_by_perm x l)) in Hz as [<-|Hz]; [exact Hyx|].
      now apply (proj1 (Forall_forall _ _) Hy).
Qed.

Lemma order_by_sorted l : StronglySorted leP (order_by le l).
Proof.
  induction l as [|x l IH]; simpl; [constructor | now apply insert_by_sorted].
Qed.

End OrderBy.

(** Text compares as a total preorder. *)
Lemma string_compare_trans (s1 s2 s3 : string) :
  String.compare s1 s2 <> Gt -> String.compare s2 s3 <> Gt ->
  String.compare s1 s3 <> Gt.
Proof.
  revert s2 s3; induction s1 as [|a s1 IH]; intros [|b s2] [|c s3]; simpl;
    try congruence.
  unfold Ascii.compare.
  destruct (N.compare_spec (N_of_ascii a) (N_of_ascii b)) as [E1|L1|G1];
    destruct (N.compare_spec (N_of_ascii b) (N_of_ascii c)) as [E2|L2|G2];
    try congruence; intros H1 H2.
  - rewrite E1, E2, N.compare_refl. now apply (IH s2).
  - rewrite E1. now rewrite (proj2 (N.compare_lt_iff _ _) L2).
  - rewrite <- E2. now rewrite (proj2 (N.compare_lt_iff _ _) L1).
  - rewrite (proj2 (N.compare_lt_iff _ _) (N.lt_trans _ _ _ L1 L2)). congruence.
Qed.

Lemma string_leb_trans (s1 s2 s3 : string) :
  String.leb s1 s2 = true -> String.leb s2 s3 = true -> String.leb s1 s3 = true.
Proof.
  unfold String.leb. intros H1 H2.
  pose proof (string_compare_trans s1 s2 s3) as H.
  destruct (String.compare s1 s2), (String.compare s2 s3), (String.compare s1 s3);
    try reflexivity; try discriminate; exfalso; apply H; congruence.
Qed.

(** ** [math.ceil(amount / 1000)] *)

(** Rounding to the nearest integer misses the quotient by half a unit at
    most. *)
Lemma round_half_even_near (n d : Z) :
  0 < d ->
  - d <= 2 * (round_half_even n d * d - n) <= d.
Proof.
  intros Hd. unfold round_half_even.
  pose proof (Z.div_mod n d ltac:(lia)) as E.
  pose proof (Z.mod_pos_bound n d Hd) as B.
  set (q := n / d) in *. set (r := n mod d) in *.
  destruct (Z.ltb_spec (2 * r) d); [nia|].
  destruct (Z.ltb_spec d (2 * r)); [nia|].
  destruct (Z.even q); nia.
Qed.

(** Below [2^44 * 1000] the quotient lies under [2^44]. *)
Lemma log2_quotient_small (n : Z) :
  0 < n < 2 ^ 44 * 1000 ->
  - 10 <= log2_quotient n 1000 <= 43.
Proof.
  intros Hn. unfold log2_quotient.
  change (Z.log2 1000) with 9.
  pose proof (Z.log2_nonneg n) as H0.
  assert (H53 : Z.log2 n < 54).
  { apply Z.log2_lt_pow2; [lia|]. change (2 ^ 54) with 18014398509481984.
    change (2 ^ 44) with 17592186044416 in Hn. lia. }
  destruct (Z.leb_spec 0 (Z.log2 n - 9)) as [Hk|Hk].
  - destruct (Z.leb_spec (1000 * 2 ^ (Z.log2 n - 9)) n) as [Ht|Ht]; [|lia].
    split; [lia|].
    assert (2 ^ (Z.log2 n - 9) < 2 ^ 44) by lia.
    apply Z.pow_lt_mono_r_iff in H; lia.
  - destruct (Z.leb_spec 1000 (n * 2 ^ (- (Z.log2 n - 9)))); lia.
Qed.

(** On such amounts the double keeps the thousandths: the ceiling of the
    float is the ceiling of the quotient. *)
Lemma truediv_1000_exact (amount : Z) :
  exact_amount amount ->
  exists quotient,
    truediv amount 1000 = inr quotient /\
    math_ceil quotient = ceil_div amount 1000.
Proof.
  unfold exact_amount. intros Ha.
  destruct (Z.eq_dec amount 0) as [->|Hnz].
  { eexists. split; reflexivity. }
  unfold truediv. change (1000 =? 0) with false. cbv iota.
  destruct (Z.eqb_spec amount 0) as [E|_]; [contradiction|].
  change (Z.abs 1000) with 1000. change (1000 <? 0) with false.
  set (n := Z.abs amount).
  assert (Hn : 0 < n < 2 ^ 44 * 1000) by (unfold n; lia).
  pose proof (log2_quotient_small n Hn) as HL.
  set (L := log2_quotient n 1000) in *.
  rewrite Z.max_l by lia.
  destruct (Z.leb_spec 0 (L - 52)) as [|_]; [lia|].
  set (s := 2 ^ (- (L - 52))).
  assert (Hs : 512 <= s).
  { change 512 with (2 ^ 9). apply Z.pow_le_mono_r; lia. }
  set (m := round_half_even (n * s) 1000).
  pose proof (round_half_even_near (n * s) 1000 ltac:(lia)) as Hm. fold m in Hm.
  assert (Hpow : 2 ^ (L - 52) = 0) by (apply Z.pow_neg_r; lia).
  rewrite Hpow, Z.mul_0_r.
  change (2 ^ 1024 <=? 0) with false. cbv iota.
  eexists. split; [reflexivity|].
  unfold math_ceil. cbn [mantissa exponent negative].
  destruct (Z.leb_spec 0 (L - 52)) as [|_]; [lia|]. fold s.
  pose proof (ceil_div_bounds amount 1000 ltac:(lia)) as Hc.
  set (c := ceil_div amount 1000) in *.
  destruct (Z.ltb_spec amount 0) as [Hneg|Hpos]; cbn [xorb].
  - (* a negative amount: minus the floor of the size *)
    assert (En : n = - amount) by (unfold n; lia).
    assert (Hfloor : m / s = - c).
    { symmetry. apply (Z.div_unique_pos m s (- c) (m + c * s)); nia. }
    lia.
  - assert (En : n = amount) by (unfold n; lia).
    apply ceil_div_unique; nia.
Qed.
(** ** The table under the Generator *)

Lemma seq_cons (d n : nat) : List.seq d (S n) = d :: List.seq (S d) n.
Proof. reflexivity. Qed.

Lemma max_rowid_le (rows : list StockRow) (b : Z) :
  0 <= b -> Forall (fun r => id r <= b) rows -> max_rowid rows <= b.
Proof.
  intros Hb H; induction H as [|r rows Hr _ IH]; simpl; lia.
Qed.

Lemma filled_max_rowid n w : filled n w -> max_rowid (stock w) <= Z.of_nat n.
Proof.
  intros [Hids _]. apply max_rowid_le; [lia|].
  apply Forall_forall; intros r Hr.
  apply (in_map id) in Hr. rewrite Hids in Hr.
  apply in_map_iff in Hr as (k & <- & Hk%in_seq). lia.
Qed.

Lemma insert_row_filled n w t : filled n w -> filled (S n) (insert_row w t).
Proof.
  intros Hf. pose proof (filled_max_rowid n w Hf) as Hmax.
  destruct Hf as [Hids Hseq]. destruct t as [[sku value] date].
  unfold insert_row, filled, set_sqlite_seq, set_stock; cbn [stock sqlite_seq].
  rewrite Hseq, Z.max_l by lia. split; [|lia].
  rewrite map_app, Hids, seq_S, map_app. cbn [map id].
  do 2 f_equal. lia.
Qed.

Lemma executemany_insert_filled data n w :
  filled n w ->
  filled (n + List.length data) (snd (executemany_insert data w)).
Proof.
  unfold executemany_insert; simpl.
  revert n w; induction data as [|t data IH]; intros n w Hf; simpl.
  - now rewrite Nat.add_0_r.
  - replace (n + S (List.length data))%nat with (S n + List.length data)%nat by lia.
    apply IH. now apply insert_row_filled.
Qed.

Lemma generate_one_table w :
  stock (snd (generate_one w)) = stock w /\
  sqlite_seq (snd (generate_one w)) = sqlite_seq w.
Proof. split; reflexivity. Qed.

Lemma repeat_generate_one k w :
  let '(turns, w') := repeat_m generate_one k w in
  List.length turns = k /\ stock w' = stock w /\ sqlite_seq w' = sqlite_seq w.
Proof.
  revert w; induction k as [|k IH]; intros w; [now simpl|].
  simpl. unfold bind at 1.
  destruct (generate_one w) as [p w1] eqn:E1.
  pose proof (generate_one_table w) as [Hs Hq]. rewrite E1 in Hs, Hq; simpl in Hs, Hq.
  unfold bind at 1. specialize (IH w1).
  destruct (repeat_m generate_one k w1) as [ps w2].
  unfold ret; simpl. destruct IH as (-> & -> & ->). now rewrite Hs, Hq.
Qed.

Lemma generate_batch_filled ii left offset i n w :
  filled n w ->
  let '(ys, w') := generate_batch ii left offset i w in
  List.length ys = turns_of ii left offset i /\
  filled (n + turns_of ii left offset i) w'.
Proof.
  intros Hf. unfold generate_batch, bind.
  pose proof (repeat_generate_one (turns_of ii left offset i) w) as Hr.
  unfold turns_of in *.
  destruct (repeat_m generate_one _ w) as [turns w1].
  destruct Hr as (Hlen & Hs & Hq).
  assert (Hf1 : filled n w1) by (unfold filled; now rewrite Hs, Hq).
  pose proof (executemany_insert_filled (map fst turns) n w1 Hf1) as Hi.
  destruct (executemany_insert (map fst turns) w1) as [[] w2]; simpl in *.
  rewrite !length_map in *. rewrite Hlen in *. now split.
Qed.

Lemma generate_batches_filled ii left offset idx n w :
  filled n w ->
  let '(bs, w') := for_each (generate_batch ii left offset) idx w in
  List.length (List.concat bs) = list_sum (map (turns_of ii left offset) idx) /\
  filled (n + list_sum (map (turns_of ii left offset) idx)) w'.
Proof.
  revert n w; induction idx as [|i idx IH]; intros n w Hf; simpl.
  - now rewrite Nat.add_0_r.
  - unfold bind at 1.
    pose proof (generate_batch_filled ii left offset i n w Hf) as Hb.
    destruct (generate_batch ii left offset i w) as [ys w1].
    destruct Hb as [Hlen Hf1].
    unfold bind at 1. specialize (IH _ w1 Hf1).
    destruct (for_each (generate_batch ii left offset) idx w1) as [bs w2].
    unfold ret; simpl. destruct IH as [Hl Hf2].
    rewrite length_app, Hlen, Hl. split; [reflexivity|].
    now rewrite Nat.add_assoc.
Qed.

Lemma list_sum_map_const {A} (f : A -> nat) (c : nat) (l : list A) :
  (forall x, In x l -> f x = c) ->
  list_sum (map f l) = (List.length l * c)%nat.
Proof.
  induction l as [|x l IH]; intros H; simpl; [reflexivity|].
  rewrite (H x) by now left. rewrite IH; [reflexivity|].
  intros y Hy; apply H; now right.
Qed.

(** All turns of the outer loop but the final one make [offset] rows; the
    final one makes [left]. *)
Lemma turns_of_sum (m : nat) (left offset : Z) :
  list_sum (map (turns_of (Z.of_nat (S m)) left offset) (py_range1 (Z.of_nat (S m))))
  = (m * Z.to_nat offset + Z.to_nat left)%nat.
Proof.
  unfold py_range1. rewrite Nat2Z.id, seq_S, !map_app, list_sum_app.
  rewrite (list_sum_map_const _ (Z.to_nat offset)).
  - rewrite length_map, length_seq. cbn [map list_sum Nat.add].
    unfold turns_of, list_sum; cbn [fold_right].
    destruct (Z.eqb_spec (Z.of_nat m + 1) (Z.of_nat (S m))); lia.
  - intros i (k & <- & Hk%in_seq)%in_map_iff. unfold turns_of.
    destruct (Z.eqb_spec (Z.of_nat k + 1) (Z.of_nat (S m))); [lia | reflexivity].
Qed.

Lemma length_stream_lines (_id : Z) (ys : list GenTuple) :
  List.length (stream_lines _id ys) = List.length ys.
Proof.
  revert _id; induction ys as [|[[sku value] date] ys IH]; intros _id; simpl;
    [reflexivity | now rewrite IH].
Qed.

Lemma reset_stock_filled w : filled 0 (snd (reset_stock w)).
Proof. split; reflexivity. Qed.

(** ** What the Generator stores and what it streams *)

Lemma max_rowid_nonneg rows : 0 <= max_rowid rows.
Proof. induction rows as [|r rows IH]; simpl; lia. Qed.

Lemma max_rowid_app rows rows' :
  max_rowid (rows ++ rows') = Z.max (max_rowid rows) (max_rowid rows').
Proof.
  induction rows as [|r rows IH]; simpl.
  - pose proof (max_rowid_nonneg rows'). lia.
  - rewrite IH. lia.
Qed.

Lemma last_rowid_nonneg w : 0 <= last_rowid w.
Proof. unfold last_rowid. pose proof (max_rowid_nonneg (stock w)). lia. Qed.

Lemma skip_skip {A} (n m : nat) (t : Tape A) : skip n (skip m t) = skip (n + m) t.
Proof. unfold skip; cbn [cell drawn]. f_equal. lia. Qed.

Lemma skip_0 {A} (t : Tape A) : skip 0 t = t.
Proof. now destruct t. Qed.

Lemma grown_0 w : grown w 0 w.
Proof.
  unfold grown. cbn [List.seq map]. rewrite app_nil_r, Z.add_0_r, !skip_0.
  now repeat split.
Qed.

(** The turns of the inner loop draw and do not touch the table. *)
Lemma repeat_generate_one_draws k w :
  let '(turns, w') := repeat_m generate_one k w in
  turns = map (fun j => (appended_at w j, yielded_at w j)) (List.seq 0 k) /\
  stock w' = stock w /\ sqlite_seq w' = sqlite_seq w /\
  ean_src w' = skip k (ean_src w) /\
  int_src w' = skip (2 * k) (int_src w) /\
  date_src w' = skip k (date_src w) /\
  sql_src w' = sql_src w.
Proof.
  revert w; induction k as [|k IH]; intros w.
  - cbn [repeat_m ret List.seq map]. rewrite !skip_0. now repeat split.
  - cbn [repeat_m]. unfold bind at 1.
    unfold generate_one at 1, bind at 1, fake_date_time at 1, bind at 1,
      fake_ean at 1, bind at 1, randint at 1, bind at 1, randint at 1, ret at 1.
    cbn [stock sqlite_seq ean_src int_src date_src sql_src].
    unfold bind at 1.
    match goal with |- context [repeat_m generate_one k ?w1] =>
      specialize (IH w1); destruct (repeat_m generate_one k w1) as [turns w'] end.
    cbn [stock sqlite_seq ean_src int_src date_src sql_src] in IH.
    destruct IH as (-> & Hs & Hq & He & Hi & Hd & Hr).
    unfold ret. cbv beta iota. rewrite Hs, Hq, He, Hi, Hd, Hr.
    rewrite seq_cons, <- seq_shift. cbn [map]. rewrite map_map.
    split; [|split; [reflexivity|split; [reflexivity|]]].
    + f_equal. apply map_ext. intros j.
      unfold appended_at, yielded_at, peek, advance;
        cbn [stock sqlite_seq ean_src int_src date_src sql_src cell drawn].
      replace (j + S (drawn (ean_src w)))%nat with (S j + drawn (ean_src w))%nat by lia.
      replace (j + S (drawn (date_src w)))%nat with (S j + drawn (date_src w))%nat by lia.
      replace (2 * j + S (S (drawn (int_src w))))%nat
        with (2 * S j + drawn (int_src w))%nat by lia.
      reflexivity.
    + unfold skip, advance; cbn [cell drawn].
      repeat split; f_equal; lia.
Qed.

Lemma insert_row_grows w t :
  stock (insert_row w t) = (stock w ++ [stored_row (last_rowid w + 1) t])%list /\
  last_rowid (insert_row w t) = last_rowid w + 1 /\
  ean_src (insert_row w t) = ean_src w /\ int_src (insert_row w t) = int_src w /\
  date_src (insert_row w t) = date_src w /\ sql_src (insert_row w t) = sql_src w.
Proof.
  destruct t as [[sku value] date].
  unfold insert_row, last_rowid, set_sqlite_seq, set_stock, stored_row;
    cbn [stock sqlite_seq ean_src int_src date_src sql_src fst snd].
  split; [reflexivity|]. split; [|now repeat split].
  rewrite max_rowid_app. cbn [max_rowid fold_right id].
  pose proof (max_rowid_nonneg (stock w)). lia.
Qed.

(** The rows [executemany] stores: numbered on from the last rowid. *)
Lemma executemany_insert_grows (g : nat -> GenTuple) k w :
  let w' := snd (executemany_insert (map g (List.seq 0 k)) w) in
  stock w'
  = (stock w
     ++ map (fun j => stored_row (last_rowid w + 1 + Z.of_nat j) (g j)) (List.seq 0 k))%list /\
  last_rowid w' = last_rowid w + Z.of_nat k /\
  ean_src w' = ean_src w /\ int_src w' = int_src w /\
  date_src w' = date_src w /\ sql_src w' = sql_src w.
Proof.
  unfold executemany_insert; cbn [snd].
  revert g w; induction k as [|k IH]; intros g w.
  - cbn [List.seq map fold_left]. rewrite app_nil_r, Z.add_0_r. now repeat split.
  - rewrite seq_cons, <- seq_shift. cbn [map fold_left]. rewrite !map_map.
    pose proof (insert_row_grows w (g 0%nat)) as (Hs & Hl & He & Hi & Hd & Hq).
    specialize (IH (fun j => g (S j)) (insert_row w (g 0%nat))).
    destruct IH as (IHs & IHl & IHe & IHi & IHd & IHq).
    rewrite IHs, IHl, IHe, IHi, IHd, IHq, Hs, Hl, He, Hi, Hd, Hq.
    split; [|split; [lia | now repeat split]].
    rewrite <- app_assoc. cbn [app]. rewrite Z.add_0_r. do 2 f_equal.
    apply map_ext. intros j. f_equal. lia.
Qed.

Lemma seq_from (n k : nat) :
  List.seq n k = map (fun j => (n + j)%nat) (List.seq 0 k).
Proof.
  induction n as [|n IH]; cbn [Nat.add].
  - now rewrite map_id.
  - now rewrite <- seq_shift, IH, map_map.
Qed.

Lemma appended_at_skip w w' n j :
  ean_src w' = skip n (ean_src w) -> int_src w' = skip (2 * n) (int_src w) ->
  date_src w' = skip n (date_src w) ->
  appended_at w' j = appended_at w (n + j) /\ yielded_at w' j = yielded_at w (n + j).
Proof.
  intros He Hi Hd. unfold appended_at, yielded_at. rewrite He, Hi, Hd.
  unfold skip; cbn [cell drawn].
  replace (j + (n + drawn (ean_src w)))%nat with (n + j + drawn (ean_src w))%nat by lia.
  replace (j + (n + drawn (date_src w)))%nat with (n + j + drawn (date_src w))%nat by lia.
  replace (2 * j + (2 * n + drawn (int_src w)))%nat
    with (2 * (n + j) + drawn (int_src w))%nat by lia.
  split; reflexivity.
Qed.

(** One turn of the outer loop, taken after [n] rows: it yields the tuples
    [n .. n + k - 1] and stores the rows of the same numbers. *)
Lemma generate_batch_grows ii left offset i w n w1 :
  grown w n w1 ->
  let '(ys, w2) := generate_batch ii left offset i w1 in
  ys = map (yielded_at w) (List.seq n (turns_of ii left offset i)) /\
  grown w (n + turns_of ii left offset i) w2.
Proof.
  intros (Hs & Hl & He & Hi & Hd & Hq). unfold generate_batch, bind.
  fold (turns_of ii left offset i). set (k := turns_of ii left offset i).
  pose proof (repeat_generate_one_draws k w1) as Hr.
  destruct (repeat_m generate_one k w1) as [turns w1'].
  destruct Hr as (-> & Hs' & Hq' & He' & Hi' & Hd' & Hr').
  rewrite !map_map. cbn [fst snd].
  pose proof (executemany_insert_grows (appended_at w1) k w1') as Hx.
  destruct (executemany_insert (map (appended_at w1) (List.seq 0 k)) w1') as [[] w2].
  cbn [snd] in Hx. unfold ret.
  destruct Hx as (Hs2 & Hl2 & He2 & Hi2 & Hd2 & Hq2).
  assert (Hlast : last_rowid w1' = last_rowid w1) by (unfold last_rowid; now rewrite Hs', Hq').
  split.
  - rewrite (seq_from n k), map_map. apply map_ext. intros j.
    now apply (appended_at_skip w w1 n j).
  - unfold grown.
    rewrite Hs2, Hl2, He2, Hi2, Hd2, Hq2, Hlast, Hs', He', Hi', Hd', Hr',
      Hs, Hl, He, Hi, Hd, Hq, !skip_skip.
    split; [|split; [lia | repeat split; f_equal; lia]].
    rewrite <- app_assoc. f_equal.
    rewrite seq_app, map_app. f_equal. cbn [Nat.add].
    rewrite (seq_from n k), map_map. apply map_ext. intros j.
    unfold generated_row. f_equal; [lia|].
    now apply (appended_at_skip w w1 n j).
Qed.

Lemma generate_batches_grow ii left offset idx w n w1 :
  grown w n w1 ->
  let '(bs, w2) := for_each (generate_batch ii left offset) idx w1 in
  let total := list_sum (map (turns_of ii left offset) idx) in
  List.concat bs = map (yielded_at w) (List.seq n total) /\
  grown w (n + total) w2.
Proof.
  revert n w1; induction idx as [|i idx IH]; intros n w1 Hg.
  - cbn. now rewrite Nat.add_0_r.
  - cbn [for_each]. unfold bind at 1.
    pose proof (generate_batch_grows ii left offset i w n w1 Hg) as Hb.
    destruct (generate_batch ii left offset i w1) as [ys w2].
    destruct Hb as [-> Hg2]. unfold bind at 1.
    specialize (IH _ w2 Hg2).
    destruct (for_each (generate_batch ii left offset) idx w2) as [bs w3].
    unfold ret. cbv zeta in *. destruct IH as [Hc Hg3].
    cbn [List.concat map list_sum fold_right]. rewrite Hc.
    split.
    + now rewrite <- map_app, <- seq_app.
    + now rewrite Nat.add_assoc.
Qed.

(** The Generator, whole: on any table it appends [generated amount offset]
    rows after the rows that are there and yields as many tuples; when its
    division raises it has done nothing. *)
Lemma generate_random_data_grows amount offset w :
  let '(ys, raised, w') := generate_random_data amount offset w in
  ys = map (yielded_at w) (List.seq 0 (generated amount offset)) /\
  grown w (generated amount offset) w' /\
  match truediv amount offset with
  | inl e => raised = Some e /\ w' = w
  | inr _ => raised = None
  end.
Proof.
  unfold generate_random_data, generated.
  destruct (truediv amount offset) as [e|quotient].
  - cbn [ret]. split; [reflexivity|]. split; [apply grown_0 | now split].
  - unfold bind.
    pose proof (generate_batches_grow (math_ceil quotient) (amount mod offset)
                  offset (py_range1 (math_ceil quotient)) w 0 w (grown_0 w)) as H.
    destruct (for_each _ (py_range1 (math_ceil quotient)) w) as [bs w'].
    cbv zeta in H. unfold ret. destruct H as [H1 H2].
    split; [exact H1|]. split; [exact H2 | reflexivity].
Qed.

Lemma generated_of_ceil amount offset quotient :
  truediv amount offset = inr quotient ->
  generated amount offset
  = list_sum (map (turns_of (math_ceil quotient) (amount mod offset) offset)
                  (py_range1 (math_ceil quotient))).
Proof. intros H. unfold generated. now rewrite H. Qed.

Lemma generated_positive amount :
  exact_amount amount -> 1 <= amount ->
  generated amount 1000
  = Z.to_nat (if amount mod 1000 =? 0 then amount - 1000 else amount).
Proof.
  intros He Ha.
  destruct (truediv_1000_exact amount He) as (quotient & Hq & Hc).
  rewrite (generated_of_ceil _ _ _ Hq), Hc.
  pose proof (ceil_div_bounds amount 1000 ltac:(lia)) as Hb.
  set (ii := ceil_div amount 1000) in *.
  set (left := amount mod 1000).
  pose proof (Z.mod_pos_bound amount 1000 ltac:(lia)) as Hl. fold left in Hl.
  pose proof (Z.div_mod amount 1000 ltac:(lia)) as Hd. fold left in Hd.
  assert (Hii : 1 <= ii) by nia.
  replace ii with (Z.of_nat (S (Z.to_nat (ii - 1)))) by lia.
  rewrite turns_of_sum.
  destruct (Z.eqb_spec left 0) as [E|E].
  - assert (ii = amount / 1000) by nia. nia.
  - assert (ii = amount / 1000 + 1) by nia. nia.
Qed.

Lemma generated_nonpositive amount :
  exact_amount amount -> amount <= 0 -> generated amount 1000 = O.
Proof.
  intros He Ha.
  destruct (truediv_1000_exact amount He) as (quotient & Hq & Hc).
  rewrite (generated_of_ceil _ _ _ Hq), Hc. unfold py_range1.
  pose proof (ceil_div_bounds amount 1000 ltac:(lia)).
  replace (Z.to_nat (ceil_div amount 1000)) with O by nia. reflexivity.
Qed.

Lemma reset_stock_last_rowid w : last_rowid (snd (reset_stock w)) = 0.
Proof. reflexivity. Qed.

Lemma stream_lines_seq (g : nat -> GenTuple) (_id : Z) (n : nat) :
  stream_lines _id (map g (List.seq 0 n))
  = map (fun j =>
           join "," [str_int (_id + Z.of_nat j); fst (fst (g j));
                     str_int (snd (fst (g j))); isoformat (snd (g j))] ++ nl)
        (List.seq 0 n).
Proof.
  revert g _id; induction n as [|n IH]; intros g _id; [reflexivity|].
  rewrite seq_cons, <- seq_shift. cbn [map]. rewrite !map_map.
  cbn [stream_lines]. destruct (g 0%nat) as [[sku value] date] eqn:E.
  cbn [fst snd]. rewrite Z.add_0_r. f_equal.
  rewrite (IH (fun j => g (S j))). apply map_ext. intros j.
  replace (_id + 1 + Z.of_nat j) with (_id + Z.of_nat (S j)) by lia.
  reflexivity.
Qed.

(** What [POST /initialize-stock/] leaves and streams, for any amount. *)
Lemma initialize_stock_rows amount w :
  let '(response, w') := initialize_stock amount w in
  let w0 := snd (reset_stock w) in
  let n := generated amount 1000 in
  stock w' = map (generated_row w0) (List.seq 0 n) /\
  body response
  = csv_header
      :: map (fun j =>
                join "," [str_int (1 + Z.of_nat j); fst (fst (yielded_at w0 j));
                          str_int (snd (fst (yielded_at w0 j)));
                          isoformat (snd (yielded_at w0 j))] ++ nl)
             (List.seq 0 n).
Proof.
  unfold initialize_stock, bind.
  destruct (reset_stock w) as [[] w0] eqn:E0. cbn [snd].
  assert (Hs0 : stock w0 = []).
  { unfold reset_stock in E0. now injection E0 as <-. }
  pose proof (generate_random_data_grows amount 1000 w0) as Hg.
  destruct (generate_random_data amount 1000 w0) as [[ys raised] w'].
  destruct Hg as (-> & (Hs & _) & _). unfold ret. cbv zeta.
  rewrite Hs, Hs0. cbn [app body fst].
  now rewrite stream_lines_seq.
Qed.

(** The status, the end of the stream and the sequence after
    [POST /initialize-stock/], for any amount. *)
Lemma initialize_stock_outcome amount w :
  let '(response, w') := initialize_stock amount w in
  status_code response = 200 /\
  media_type response = "text/csv" /\
  match truediv amount 1000 with
  | inl e => aborted response = Some e /\ w' = snd (reset_stock w)
  | inr _ => aborted response = None
  end.
Proof.
  unfold initialize_stock, bind.
  destruct (reset_stock w) as [[] w0] eqn:E0. cbn [snd].
  pose proof (generate_random_data_grows amount 1000 w0) as Hg.
  destruct (generate_random_data amount 1000 w0) as [[ys raised] w'].
  destruct Hg as (_ & _ & Hr). unfold ret.
  cbn [status_code media_type aborted snd].
  split; [reflexivity|]. split; [reflexivity|]. exact Hr.
Qed.

(** After [POST /initialize-stock/], for any amount, the table is filled. *)
Lemma initialize_stock_always_filled amount w :
  filled (generated amount 1000) (snd (initialize_stock amount w)).
Proof.
  unfold initialize_stock, bind.
  pose proof (reset_stock_filled w) as Hr.
  destruct (reset_stock w) as [[] w0]. cbn [snd] in Hr.
  unfold generate_random_data, generated.
  destruct (truediv amount 1000) as [e|quotient]; [exact Hr|].
  unfold bind.
  pose proof (generate_batches_filled (math_ceil quotient) (amount mod 1000) 1000
                (py_range1 (math_ceil quotient)) 0 w0 Hr) as Hb.
  destruct (for_each _ (py_range1 (math_ceil quotient)) w0) as [bs w'].
  exact (proj2 Hb).
Qed.
(** ** The Generator's claims *)

Lemma exact_amount_of (amount : Z) :
  - (2 ^ 44 * 1000) < amount < 2 ^ 44 * 1000 -> exact_amount amount.
Proof. unfold exact_amount. lia. Qed.

Lemma initialize_stock_not_aborted amount w :
  exact_amount amount -> aborted (fst (initialize_stock amount w)) = None.
Proof.
  intros He. pose proof (initialize_stock_outcome amount w) as H.
  destruct (initialize_stock amount w) as [response w'].
  destruct (truediv_1000_exact amount He) as (quotient & Hq & _).
  rewrite Hq in H. apply H.
Qed.

Lemma initialize_stock_body_length amount w :
  List.length (body (fst (initialize_stock amount w)))
  = S (generated amount 1000) /\
  hd_error (body (fst (initialize_stock amount w))) = Some csv_header.
Proof.
  pose proof (initialize_stock_rows amount w) as H.
  destruct (initialize_stock amount w) as [response w']. cbv zeta in H.
  cbn [fst]. rewrite (proj2 H). cbn [List.length hd_error].
  now rewrite length_map, length_seq.
Qed.

(** X1 (the part of C1 that holds).  For every [amount >= 1] below
    [2^44 * 1000] that [1000] does not divide, [POST /initialize-stock/]
    leaves exactly [amount] rows, with the ids [1..amount], and streams one
    CSV line for each after the header, to the end. *)
Theorem initialize_stock_not_divisible (amount : Z) (w : World) :
  1 <= amount < 2 ^ 44 * 1000 ->
  amount mod 1000 <> 0 ->
  let '(response, w') := initialize_stock amount w in
  map id (stock w') = map Z.of_nat (List.seq 1 (Z.to_nat amount)) /\
  Z.of_nat (List.length (stock w')) = amount /\
  sqlite_seq w' = amount /\
  Z.of_nat (List.length (body response)) = 1 + amount /\
  hd_error (body response) = Some csv_header /\
  aborted response = None.
Proof.
  intros Ha Hm.
  assert (He : exact_amount amount) by (apply exact_amount_of; lia).
  pose proof (initialize_stock_always_filled amount w) as Hf.
  pose proof (initialize_stock_body_length amount w) as [Hlen Hhd].
  pose proof (initialize_stock_not_aborted amount w He) as Hab.
  rewrite generated_positive in Hf, Hlen by (assumption || lia).
  destruct (Z.eqb_spec (amount mod 1000) 0) as [E|_]; [contradiction|].
  destruct (initialize_stock amount w) as [response w']. cbn [fst snd] in *.
  destruct Hf as [Hids Hseq].
  split; [exact Hids|]. split.
  { rewrite <- (length_map id), Hids, length_map, length_seq. lia. }
  split; [lia|]. split; [lia|]. split; [exact Hhd | exact Hab].
Qed.

Lemma initialize_stock_not_divisible_witness :
  let '(response, w') := initialize_stock 5 sample_world in
  map id (stock w') = [1; 2; 3; 4; 5] /\
  Z.of_nat (List.length (body response)) = 6.
Proof.
  pose proof (initialize_stock_not_divisible 5 sample_world
                ltac:(split; [lia | reflexivity])
                ltac:(vm_compute; discriminate)) as H.
  destruct (initialize_stock 5 sample_world) as [response w'].
  destruct H as (Hids & _ & _ & Hlen & _).
  split; [exact Hids | exact Hlen].
Defined.

(** X2 (how C1 fails).  For every [amount >= 1] below [2^44 * 1000] that
    [1000] divides, the final turn of the generator's outer loop makes no
    row: [POST /initialize-stock/] leaves [amount - 1000] rows, with the ids
    [1..amount - 1000], and streams as many CSV lines after the header. *)
Theorem initialize_stock_divisible (amount : Z) (w : World) :
  1 <= amount < 2 ^ 44 * 1000 ->
  amount mod 1000 = 0 ->
  let '(response, w') := initialize_stock amount w in
  map id (stock w') = map Z.of_nat (List.seq 1 (Z.to_nat (amount - 1000))) /\
  Z.of_nat (List.length (stock w')) = amount - 1000 /\
  Z.of_nat (List.length (body response)) = 1 + (amount - 1000) /\
  aborted response = None.
Proof.
  intros Ha Hm.
  assert (He : exact_amount amount) by (apply exact_amount_of; lia).
  pose proof (initialize_stock_always_filled amount w) as Hf.
  pose proof (initialize_stock_body_length amount w) as [Hlen _].
  pose proof (initialize_stock_not_aborted amount w He) as Hab.
  rewrite generated_positive in Hf, Hlen by (assumption || lia).
  rewrite Hm in Hf, Hlen. cbn [Z.eqb] in Hf, Hlen.
  destruct (initialize_stock amount w) as [response w']. cbn [fst snd] in *.
  destruct Hf as [Hids _].
  assert (1000 <= amount).
  { pose proof (Z.div_mod amount 1000 ltac:(lia)). lia. }
  split; [exact Hids|]. split; [|split; [lia | exact Hab]].
  rewrite <- (length_map id), Hids, length_map, length_seq. lia.
Qed.

Lemma initialize_stock_divisible_witness :
  let '(response, w') := initialize_stock 2000 sample_world in
  Z.of_nat (List.length (stock w')) = 1000 /\
  Z.of_nat (List.length (body response)) = 1001.
Proof.
  pose proof (initialize_stock_divisible 2000 sample_world
                ltac:(split; [lia | reflexivity])
                ltac:(reflexivity)) as H.
  destruct (initialize_stock 2000 sample_world) as [response w'].
  destruct H as (_ & Hrows & Hlen & _).
  split; [exact Hrows | exact Hlen].
Defined.

(** C1 at [amount = 1000], on a table that holds five rows: the single turn
    of the outer loop is the final one and makes [1000 mod 1000 = 0] rows, so
    the table ends up empty and the CSV is the header alone, where the claim
    has 1000 rows with the ids [1..1000]. *)
Theorem initialize_stock_1000_makes_no_row :
  let '(response, w') := initialize_stock 1000 sample_world_5 in
  ceil_div 1000 1000 = 1 /\
  1000 mod 1000 = 0 /\
  stock w' = [] /\
  body response = [csv_header].
Proof. vm_compute. repeat split. Qed.

(** Each turn of the generator's inner loop draws two values: the first goes
    to the row that is stored, the second to the tuple that is streamed. *)
Lemma generate_one_values (w : World) :
  let '(appended, yielded) := fst (generate_one w) in
  appended = (peek (ean_src w), cell (int_src w) (drawn (int_src w)) mod 201,
              peek (date_src w)) /\
  yielded = (peek (ean_src w), cell (int_src w) (S (drawn (int_src w))) mod 201,
             peek (date_src w)).
Proof. split; reflexivity. Qed.

(** C3 at [amount = 1], with [randint] drawing [5] and then [7]: the row
    stored has the value [5], and the CSV line streamed for it says [7]. *)
Theorem initialize_stock_streams_another_value :
  let '(response, w') := initialize_stock 1 sample_world in
  stock w' = [mk_row 1 "4006381333931" 5 "2024-01-28 10:30:00"] /\
  body response = [csv_header; "1,4006381333931,7,2024-01-28T10:30:00" ++ nl] /\
  map value (stock w') = [5] /\
  map (fun s => snd (fst s))
      (fst (fst (generate_random_data 1 1000 (snd (reset_stock sample_world)))))
  = [7].
Proof. vm_compute. repeat split. Qed.

(** ** More on the Generator *)

(** With nothing to generate the generator does nothing at all. *)
Lemma generate_random_data_nonpositive amount w :
  exact_amount amount -> amount <= 0 ->
  generate_random_data amount 1000 w = ([], None, w).
Proof.
  intros He Ha. unfold generate_random_data.
  destruct (truediv_1000_exact amount He) as (quotient & -> & Hc).
  rewrite Hc. unfold py_range1.
  pose proof (ceil_div_bounds amount 1000 ltac:(lia)).
  replace (Z.to_nat (ceil_div amount 1000)) with O by nia. reflexivity.
Qed.

(** X8.  With an amount of zero or less, above [- 2^44 * 1000],
    [POST /initialize-stock/] still empties the table and resets the
    sequence, generates nothing, draws nothing from the random sources, and
    streams the header alone, to the end. *)
Theorem initialize_stock_nothing_to_generate (amount : Z) (w : World) :
  - (2 ^ 44 * 1000) < amount <= 0 ->
  initialize_stock amount w
  = (StreamingResponse [csv_header], snd (reset_stock w)) /\
  stock (snd (initialize_stock amount w)) = [] /\
  sqlite_seq (snd (initialize_stock amount w)) = 0.
Proof.
  intros Ha.
  assert (E : initialize_stock amount w
              = (StreamingResponse [csv_header], snd (reset_stock w))).
  { unfold initialize_stock, bind. destruct (reset_stock w) as [[] w0].
    rewrite generate_random_data_nonpositive by (try apply exact_amount_of; lia).
    reflexivity. }
  rewrite E. now repeat split.
Qed.

Lemma initialize_stock_nothing_to_generate_witness :
  stock (snd (initialize_stock (-3) sample_world_5)) = [].
Proof.
  exact (proj1 (proj2 (initialize_stock_nothing_to_generate (-3) sample_world_5
                         ltac:(split; [reflexivity | lia])))).
Defined.

(** Beyond the range of a double the division of the generator's first line
    raises: the stream breaks off after the header, and the table, emptied
    by the reset, stays empty. *)
Lemma initialize_stock_beyond_double :
  let '(response, w') := initialize_stock (10 ^ 400) sample_world_5 in
  status_code response = 200 /\
  body response = [csv_header] /\
  aborted response = Some OverflowError /\
  stock w' = [].
Proof. vm_compute. repeat split. Qed.

Lemma max_rowid_ge rows r : In r rows -> id r <= max_rowid rows.
Proof.
  induction rows as [|r' rows IH]; [contradiction|].
  intros [->|Hr]; simpl; [lia|]. specialize (IH Hr). lia.
Qed.

Lemma NoDup_from (b : Z) (n : nat) :
  NoDup (map (fun j => b + 1 + Z.of_nat j) (List.seq 0 n)).
Proof.
  apply NoDup_map_NoDup_ForallPairs; [|apply seq_NoDup].
  intros x y _ _ H. lia.
Qed.

(** X9.  On any table, and for any amount, the Generator only appends: the
    rows that were there stay as they are, in place; the new rows are as
    many as the tuples it yields; their ids go on, one by one, from the
    largest rowid the table has ever had; and ids that were unique stay
    unique. *)
Theorem generate_random_data_appends (amount offset : Z) (w : World) :
  offset <> 0 ->
  let '(ys, raised, w') := generate_random_data amount offset w in
  exists new,
    stock w' = (stock w ++ new)%list /\
    List.length new = List.length ys /\
    map id new
    = map (fun j => last_rowid w + 1 + Z.of_nat j) (List.seq 0 (List.length new)) /\
    (forall r r', In r (stock w) -> In r' new -> id r < id r') /\
    (NoDup (map id (stock w)) -> NoDup (map id (stock w'))).
Proof.
  intros _. pose proof (generate_random_data_grows amount offset w) as H.
  destruct (generate_random_data amount offset w) as [[ys raised] w'].
  destruct H as (-> & (Hs & _) & _).
  set (n := generated amount offset) in *.
  exists (map (generated_row w) (List.seq 0 n)).
  assert (Hids : map id (map (generated_row w) (List.seq 0 n))
                 = map (fun j => last_rowid w + 1 + Z.of_nat j) (List.seq 0 n)).
  { rewrite map_map. reflexivity. }
  assert (Hlt : forall r r', In r (stock w) ->
                  In r' (map (generated_row w) (List.seq 0 n)) -> id r < id r').
  { intros r r' Hr (j & <- & _)%in_map_iff.
    pose proof (max_rowid_ge _ _ Hr). unfold generated_row, stored_row, last_rowid.
    cbn [id]. lia. }
  split; [exact Hs|]. rewrite !length_map, length_seq.
  split; [reflexivity|]. split; [exact Hids|]. split; [exact Hlt|].
  intros Hnd. rewrite Hs, map_app. apply NoDup_app; [exact Hnd| |].
  - rewrite Hids. apply NoDup_from.
  - intros i (r & <- & Hr)%in_map_iff (r' & E & Hr')%in_map_iff.
    specialize (Hlt r r' Hr Hr'). lia.
Qed.

Lemma generate_random_data_appends_witness :
  let '(ys, raised, w') := generate_random_data 2 1000 sample_world_5 in
  exists new,
    stock w' = (stock sample_world_5 ++ new)%list /\ map id new = [6; 7].
Proof.
  pose proof (generate_random_data_appends 2 1000 sample_world_5
                ltac:(discriminate)) as H.
  destruct (generate_random_data 2 1000 sample_world_5) as [[ys raised] w'] eqn:E.
  destruct H as (new & Hs & Hlen & Hids & _).
  exists new. split; [exact Hs|]. rewrite Hids, Hlen.
  apply (f_equal (fun p => List.length (fst (fst p)))) in E.
  cbn [fst] in E. rewrite <- E. vm_compute. reflexivity.
Defined.

Lemma nth_error_map_seq {A} (f : nat -> A) (n k : nat) :
  nth_error (map f (List.seq 0 n)) k = if (k <? n)%nat then Some (f k) else None.
Proof.
  rewrite nth_error_map, nth_error_seq. now destruct (k <? n)%nat.
Qed.

(** X10.  For any amount, [POST /initialize-stock/] streams one CSV line per
    row it stores, in the order of the rows.  The row at position [k] has
    the id [k + 1], and its line has the same id, the same sku and the same
    timestamp (in ISO form).  Their values are both in [0..200] but are two
    draws of [randint], one after the other: the row gets the first, the
    line the second. *)
Theorem initialize_stock_rows_and_lines (amount : Z) (w : World) :
  let '(response, w') := initialize_stock amount w in
  List.length (body response) = S (List.length (stock w')) /\
  forall k r,
    nth_error (stock w') k = Some r ->
    id r = Z.of_nat k + 1 /\
    0 <= value r <= 200 /\
    exists v d,
      0 <= v <= 200 /\
      modified_since r = adapt_datetime d /\
      nth_error (body response) (S k)
      = Some (join "," [str_int (id r); sku r; str_int v; isoformat d] ++ nl) /\
      value r = cell (int_src w) (2 * k + drawn (int_src w)) mod 201 /\
      v = cell (int_src w) (S (2 * k + drawn (int_src w))) mod 201.
Proof.
  pose proof (initialize_stock_rows amount w) as H.
  destruct (initialize_stock amount w) as [response w']. cbv zeta in H.
  destruct H as [Hs Hb]. set (n := generated amount 1000) in *.
  split.
  { rewrite Hb, Hs. cbn [List.length]. now rewrite !length_map. }
  intros k r Hk. rewrite Hs, nth_error_map_seq in Hk.
  destruct (k <? n)%nat eqn:Ekn; [|discriminate]. injection Hk as <-.
  unfold generated_row.
  change (last_rowid (set_sqlite_seq 0 (set_stock [] w))) with 0.
  unfold stored_row, appended_at. cbn [id value sku modified_since fst snd].
  split; [lia|].
  split; [match goal with |- _ <= ?a mod 201 <= _ =>
            pose proof (Z.mod_pos_bound a 201 ltac:(lia)); lia end|].
  exists (snd (fst (yielded_at (snd (reset_stock w)) k))),
         (snd (yielded_at (snd (reset_stock w)) k)).
  split; [unfold yielded_at; cbn [fst snd];
          match goal with |- _ <= ?a mod 201 <= _ =>
            pose proof (Z.mod_pos_bound a 201 ltac:(lia)); lia end|].
  split; [reflexivity|].
  split; [|split; reflexivity].
  rewrite Hb. cbn [nth_error]. rewrite nth_error_map_seq, Ekn.
  replace (0 + 1 + Z.of_nat k) with (1 + Z.of_nat k) by lia. reflexivity.
Qed.

(** ** The Mutator *)

Lemma sql_limit_map {A B} (f : A -> B) (n : Z) (l : list A) :
  map f (sql_limit n l) = sql_limit n (map f l).
Proof. unfold sql_limit. destruct (n <? 0); [reflexivity | symmetry; apply firstn_map]. Qed.

Lemma sql_limit_incl {A} (n : Z) (l : list A) : incl (sql_limit n l) l.
Proof.
  unfold sql_limit. destruct (n <? 0); [apply incl_refl|].
  intros x Hx. rewrite <- (firstn_skipn (Z.to_nat n) l). apply in_or_app; now left.
Qed.

Lemma sql_limit_NoDup {A} (n : Z) (l : list A) : NoDup l -> NoDup (sql_limit n l).
Proof.
  unfold sql_limit. destruct (n <? 0); [trivial|].
  intros H. rewrite <- (firstn_skipn (Z.to_nat n) l) in H.
  now apply NoDup_app_remove_r in H.
Qed.

Lemma sql_limit_length {A} (n : Z) (l : list A) :
  List.length (sql_limit n l)
  = if n <? 0 then List.length l else Nat.min (Z.to_nat n) (List.length l).
Proof. unfold sql_limit. destruct (n <? 0); [reflexivity | apply length_firstn]. Qed.

(** Drawing the sort keys reads the table and moves only SQLite's tape. *)
Lemma keyed_rows (rows : list StockRow) (w : World) :
  let '(keyed, w') := for_each (fun r => k <- sql_random ;; ret (k, r)) rows w in
  keyed = combine (map (cell (sql_src w))
                       (List.seq (drawn (sql_src w)) (List.length rows))) rows /\
  stock w' = stock w /\ sqlite_seq w' = sqlite_seq w /\
  ean_src w' = ean_src w /\ date_src w' = date_src w /\ int_src w' = int_src w.
Proof.
  revert w; induction rows as [|r rows IH]; intros w; [now simpl|].
  cbn [for_each]. unfold bind at 1. unfold bind at 1, sql_random at 1, ret at 1.
  unfold bind at 1.
  match goal with |- context [for_each ?f rows ?w1] =>
    specialize (IH w1); destruct (for_each f rows w1) as [keyed w'] end.
  unfold ret. cbn [stock sqlite_seq ean_src date_src int_src sql_src advance cell drawn] in *.
  destruct IH as (-> & -> & -> & -> & -> & ->).
  cbn [List.length]. rewrite seq_cons. cbn [map combine]. unfold peek.
  now repeat split.
Qed.

Lemma shuffled_by_perm (keys : list Z) (rows : list StockRow) :
  List.length keys = List.length rows ->
  Permutation (shuffled_by keys rows) rows.
Proof.
  intros Hlen. unfold shuffled_by.
  rewrite (Permutation_map snd (order_by_perm _ (combine keys rows))).
  clear - Hlen. revert rows Hlen.
  induction keys as [|k keys IH]; intros [|r rows] Hlen; try discriminate;
    [reflexivity|].
  cbn [combine map snd]. constructor. apply IH. now injection Hlen.
Qed.

Lemma random_keys_perm w :
  Permutation (shuffled_by (random_keys w) (stock w)) (stock w).
Proof.
  apply shuffled_by_perm. unfold random_keys. now rewrite length_map, length_seq.
Qed.

Lemma sqlite_int_spec (n : Z) :
  sqlite_int n = true <-> - 2 ^ 63 <= n < 2 ^ 63.
Proof. unfold sqlite_int. rewrite andb_true_iff, Z.leb_le, Z.ltb_lt. tauto. Qed.

(** The rows [SELECT ... ORDER BY RANDOM() LIMIT ?] picks: the head of the
    table as the draws of [RANDOM()] order it; or nothing at all, when the
    limit cannot be bound. *)
Lemma select_random_spec (amount : Z) (w : World) :
  let '(result, w') := select_random amount w in
  match result with
  | inl e => sqlite_int amount = false /\ e = OverflowError /\ w' = w
  | inr selected =>
      sqlite_int amount = true /\
      selected = map (fun r => (id r, sku r))
                     (sql_limit amount (shuffled_by (random_keys w) (stock w))) /\
      stock w' = stock w /\ sqlite_seq w' = sqlite_seq w /\
      ean_src w' = ean_src w /\ date_src w' = date_src w /\ int_src w' = int_src w
  end.
Proof.
  unfold select_random. destruct (sqlite_int amount); [|now cbn].
  unfold bind, get_stock.
  pose proof (keyed_rows (stock w) w) as Hk.
  destruct (for_each _ (stock w) w) as [keyed w'].
  destruct Hk as (-> & Hw). unfold ret.
  split; [reflexivity|]. split; [|exact Hw].
  unfold shuffled_by, random_keys. now rewrite <- sql_limit_map, map_map.
Qed.

(** The loop over the selected rows: ids and skus are passed through, values
    and dates are successive draws, and the table is not touched. *)
Lemma for_each_change_one (selected : list (Z * string)) (w : World) :
  let '(data, w') := for_each change_one selected w in
  map s3 data = map fst selected /\
  map s0 data = map snd selected /\
  map s1 data = map (fun k => 0 + cell (int_src w) k mod (200 - 0 + 1))
                    (List.seq (drawn (int_src w)) (List.length selected)) /\
  map s2 data = map (cell (date_src w))
                    (List.seq (drawn (date_src w)) (List.length selected)) /\
  stock w' = stock w /\ sqlite_seq w' = sqlite_seq w /\ ean_src w' = ean_src w.
Proof.
  revert w; induction selected as [|[stock_id sku] selected IH]; intros w;
    [now simpl|].
  cbn [for_each]. unfold bind at 1.
  unfold change_one at 1, bind at 1, fake_date_time at 1, bind at 1,
    randint at 1, ret at 1.
  unfold bind at 1.
  match goal with |- context [for_each change_one selected ?w1] =>
    specialize (IH w1); destruct (for_each change_one selected w1) as [data w'] end.
  unfold ret. cbn [stock sqlite_seq ean_src int_src date_src advance cell drawn] in IH.
  destruct IH as (H3 & H0 & H1 & H2 & Hs & Hq & He).
  cbn [map List.length]. rewrite !seq_cons. cbn [map].
  rewrite H3, H0, H1, H2.
  unfold s3, s0, s1, s2, peek; cbn [fst snd].
  now repeat split.
Qed.

(** ** [UPDATE ... WHERE id=?] *)

Lemma fold_update_row (data : list StockTuple) (rows : list StockRow) :
  fold_left update_row data rows
  = map (fun r => fold_left update_one data r) rows.
Proof.
  revert rows; induction data as [|t data IH]; intros rows; simpl.
  - now rewrite map_id.
  - rewrite IH. unfold update_row. now rewrite map_map.
Qed.

Lemma update_one_id r t : id (update_one r t) = id r.
Proof. unfold update_one. now destruct (id r =? s3 t). Qed.

Lemma fold_update_one_id data r : id (fold_left update_one data r) = id r.
Proof.
  revert r; induction data as [|t data IH]; intros r; simpl; [reflexivity|].
  now rewrite IH, update_one_id.
Qed.

Lemma fold_update_one_other data r :
  ~ In (id r) (map s3 data) -> fold_left update_one data r = r.
Proof.
  revert r; induction data as [|t data IH]; intros r Hn; simpl; [reflexivity|].
  assert (Hr : update_one r t = r).
  { unfold update_one. destruct (Z.eqb_spec (id r) (s3 t)) as [E|]; [|reflexivity].
    exfalso; apply Hn; left; now symmetry. }
  rewrite Hr. apply IH. intros Hin; apply Hn; now right.
Qed.

Lemma fold_update_one_hit data r t :
  NoDup (map s3 data) -> In t data -> id r = s3 t ->
  fold_left update_one data r = row_of t.
Proof.
  revert r; induction data as [|t' data IH]; intros r Hnd Hin Hid; [contradiction|].
  cbn [map] in Hnd. apply NoDup_cons_iff in Hnd as [Hfresh Hnd]. simpl.
  destruct Hin as [->|Hin].
  - assert (Hu : update_one r t = row_of t).
    { unfold update_one, row_of. rewrite Hid, Z.eqb_refl. reflexivity. }
    rewrite Hu. apply fold_update_one_other. exact Hfresh.
  - apply IH; [exact Hnd | exact Hin | now rewrite update_one_id].
Qed.

(** The Mutator, whole: which rows it picks, what it returns for them and
    what it leaves in the table; or that it raised and did nothing. *)
Lemma change_stock_randomly_spec (amount : Z) (w : World) :
  let '(result, w') := change_stock_randomly amount w in
  match result with
  | inl e => sqlite_int amount = false /\ e = OverflowError /\ w' = w
  | inr data =>
      sqlite_int amount = true /\
      exists shuffled,
        shuffled = shuffled_by (random_keys w) (stock w) /\
        Permutation shuffled (stock w) /\
        map s3 data = map id (sql_limit amount shuffled) /\
        map s0 data = map sku (sql_limit amount shuffled) /\
        map s1 data = map (fun k => 0 + cell (int_src w) k mod (200 - 0 + 1))
                          (List.seq (drawn (int_src w)) (List.length data)) /\
        map s2 data = map (cell (date_src w))
                          (List.seq (drawn (date_src w)) (List.length data)) /\
        stock w' = map (fun r => fold_left update_one data r) (stock w) /\
        sqlite_seq w' = sqlite_seq w /\
        ean_src w' = ean_src w
  end.
Proof.
  unfold change_stock_randomly. unfold bind at 1.
  pose proof (select_random_spec amount w) as Hsel.
  destruct (select_random amount w) as [[e|selected] w1]; [exact Hsel|].
  destruct Hsel as (Hint & Hselected & Hs1 & Hq1 & He1 & Hd1 & Hi1).
  unfold bind at 1.
  pose proof (for_each_change_one selected w1) as Hch.
  destruct (for_each change_one selected w1) as [data w2].
  destruct Hch as (H3 & H0 & H1 & H2 & Hs2 & Hq2 & He2).
  unfold bind, executemany_update, ret, set_stock.
  cbn [stock sqlite_seq ean_src].
  split; [exact Hint|].
  exists (shuffled_by (random_keys w) (stock w)). split; [reflexivity|].
  split; [apply random_keys_perm|].
  assert (Hlen : List.length selected = List.length data).
  { now rewrite <- (length_map fst selected), <- H3, length_map. }
  rewrite Hselected, map_map in H3, H0. cbn [fst snd] in H3, H0.
  rewrite Hlen, Hi1, Hd1 in *.
  rewrite fold_update_row, Hs2, Hs1, Hq2, Hq1, He2, He1.
  now repeat split.
Qed.

Lemma map_pair_eq {A B X Y} (f1 : A -> X) (f2 : A -> Y) (g1 : B -> X) (g2 : B -> Y)
    (l : list A) (l' : list B) :
  map f1 l = map g1 l' -> map f2 l = map g2 l' ->
  Forall (fun a => exists b, In b l' /\ g1 b = f1 a /\ g2 b = f2 a) l.
Proof.
  revert l'; induction l as [|a l IH]; intros [|b l'] H1 H2;
    try discriminate; constructor.
  - injection H1 as E1 _. injection H2 as E2 _. exists b. split; [now left | now split].
  - injection H1 as _ H1. injection H2 as _ H2.
    eapply Forall_impl; [|exact (IH l' H1 H2)].
    intros a' (b' & Hb & E). exists b'. split; [now right | exact E].
Qed.

Section MutatorFacts.
Variables (amount : Z) (w w' : World) (data : list StockTuple)
          (shuffled : list StockRow).
Hypothesis Hperm : Permutation shuffled (stock w).
Hypothesis Hids : map s3 data = map id (sql_limit amount shuffled).
Hypothesis Hstock : stock w' = map (fun r => fold_left update_one data r) (stock w).

Lemma selected_incl : incl (map s3 data) (map id (stock w)).
Proof.
  rewrite Hids. intros i (r & <- & Hr)%in_map_iff.
  apply in_map. eapply Permutation_in; [exact Hperm|].
  now apply (sql_limit_incl amount).
Qed.

Lemma selected_NoDup : NoDup (map id (stock w)) -> NoDup (map s3 data).
Proof.
  intros Hnd. rewrite Hids, sql_limit_map. apply sql_limit_NoDup.
  eapply Permutation_NoDup; [|exact Hnd].
  apply Permutation_map. now symmetry.
Qed.

Lemma selected_length :
  List.length data
  = if amount <? 0 then List.length (stock w)
    else Nat.min (Z.to_nat amount) (List.length (stock w)).
Proof.
  rewrite <- (length_map s3 data), Hids, length_map, sql_limit_length.
  now rewrite (Permutation_length Hperm).
Qed.

Lemma ids_kept : map id (stock w') = map id (stock w).
Proof.
  rewrite Hstock, map_map. apply map_ext. intros r. apply fold_update_one_id.
Qed.

Lemma others_kept k r :
  nth_error (stock w) k = Some r -> ~ In (id r) (map s3 data) ->
  nth_error (stock w') k = Some r.
Proof.
  intros Hk Hn. rewrite Hstock, nth_error_map, Hk. simpl.
  now rewrite fold_update_one_other.
Qed.

Lemma returned_stored t :
  NoDup (map id (stock w)) -> In t data -> In (row_of t) (stock w').
Proof.
  intros Hnd Ht.
  assert (Hin : In (s3 t) (map id (stock w))) by (apply selected_incl; now apply in_map).
  apply in_map_iff in Hin as (r & Hid & Hr).
  rewrite Hstock. apply in_map_iff. exists r. split; [|exact Hr].
  apply fold_update_one_hit; [now apply selected_NoDup | exact Ht | exact Hid].
Qed.

Lemma stored_returned r :
  NoDup (map id (stock w)) -> amount < 0 -> In r (stock w') ->
  exists t, In t data /\ r = row_of t.
Proof.
  intros Hnd Hneg Hr. rewrite Hstock in Hr.
  apply in_map_iff in Hr as (r0 & <- & Hr0).
  assert (Hin : In (id r0) (map s3 data)).
  { rewrite Hids. unfold sql_limit. destruct (Z.ltb_spec amount 0); [|lia].
    apply in_map. eapply Permutation_in; [symmetry; exact Hperm | exact Hr0]. }
  apply in_map_iff in Hin as (t & Hid & Ht).
  exists t. split; [exact Ht|].
  apply fold_update_one_hit; [now apply selected_NoDup | exact Ht | now symmetry].
Qed.

End MutatorFacts.

Ltac mutator_spec amount w :=
  let H := fresh "Hspec" in
  pose proof (change_stock_randomly_spec amount w) as H;
  destruct (change_stock_randomly amount w) as [[raised|data] w'];
  [ destruct H as (Hint & Hraised & Hworld)
  | destruct H as (Hint & shuffled & Hshuffled & Hperm & Hids & Hskus
                   & Hvalues & Hdates & Hstock & Hseq & Hean) ].

Ltac nodup_ids :=
  vm_compute;
  repeat (apply NoDup_cons; [simpl; intuition discriminate|]);
  apply NoDup_nil.

(** What the handler of [POST /trigger/] returns or raises, from what the
    Mutator returns or raises. *)
Lemma stock_trigger_response {Delay : Type} (K : Z) (url : option string)
    (C : Z) (D : Delay) (R : Z) (w : World) :
  let '(changed, w') := change_stock_randomly K w in
  stock_trigger K url C D R w
  = (match changed with
     | inl e => inl e
     | inr stocks =>
         inr (StreamingResponse (csv_header :: map csv_of_stock stocks),
              if truthy url
              then option_map (fun u => mk_task u stocks C D R) url
              else None)
     end, w').
Proof.
  unfold stock_trigger, bind, ret.
  destruct (change_stock_randomly K w) as [[e|stocks] w']; [reflexivity|].
  destruct url as [u|]; [|reflexivity].
  now destruct (truthy (Some u)).
Qed.

Lemma stock_trigger_world {Delay : Type} (K : Z) (url : option string)
    (C : Z) (D : Delay) (R : Z) (w : World) :
  snd (stock_trigger K url C D R w) = snd (change_stock_randomly K w).
Proof.
  pose proof (stock_trigger_response K url C D R w) as H.
  destruct (change_stock_randomly K w). now rewrite H.
Qed.

(** ** Counting the orders of a shuffle *)

Lemma selections_perm l x r : In (x, r) (selections l) -> Permutation (x :: r) l.
Proof.
  revert x r; induction l as [|y l IH]; intros x r; cbn [selections]; [intros []|].
  intros [E|H].
  - injection E as -> ->. reflexivity.
  - apply in_map_iff in H as ([x' r'] & E & H). cbn [fst snd] in E.
    injection E as -> <-. rewrite perm_swap. constructor. now apply IH.
Qed.

Lemma length_selections l : List.length (selections l) = List.length l.
Proof.
  induction l as [|y l IH]; cbn [selections List.length]; [reflexivity|].
  now rewrite length_map, IH.
Qed.

Lemma length_flat_map_sum {A B} (f : A -> list B) (l : list A) :
  List.length (flat_map f l) = list_sum (map (fun x => List.length (f x)) l).
Proof.
  induction l as [|x l IH]; [reflexivity|].
  cbn [flat_map map]. rewrite length_app, IH. reflexivity.
Qed.

Lemma filter_flat_map {A B} (p : B -> bool) (f : A -> list B) (l : list A) :
  filter p (flat_map f l) = flat_map (fun x => filter p (f x)) l.
Proof.
  induction l as [|x l IH]; [reflexivity|].
  cbn [flat_map]. now rewrite filter_app, IH.
Qed.

Lemma list_sum_const_in {A} (f : A -> nat) (c : nat) (l : list A) :
  (forall x, In x l -> f x = c) -> list_sum (map f l) = (List.length l * c)%nat.
Proof.
  induction l as [|x l IH]; intros H; [reflexivity|].
  cbn [map List.length]. change (list_sum (f x :: map f l))
    with (f x + list_sum (map f l))%nat.
  rewrite IH by (intros y Hy; apply H; now right).
  rewrite (H x) by now left. lia.
Qed.

Lemma orders_of_perm fuel l p :
  (List.length l <= fuel)%nat -> In p (orders_of fuel l) -> Permutation p l.
Proof.
  revert l p; induction fuel as [|fuel IH]; intros l p Hlen.
  - destruct l; [|cbn in Hlen; lia]. cbn. intros [<-|[]]. constructor.
  - destruct l as [|y l]; [cbn; intros [<-|[]]; constructor|].
    cbn [orders_of]. intros H. apply in_flat_map in H as ([x r] & Hsel & H).
    cbn [fst snd] in H. apply in_map_iff in H as (q & <- & Hq).
    pose proof (selections_perm _ _ _ Hsel) as Hp.
    rewrite <- Hp. constructor. apply IH; [|exact Hq].
    apply Permutation_length in Hp. cbn [List.length] in *. lia.
Qed.

Lemma length_orders_of fuel l :
  (List.length l <= fuel)%nat -> List.length (orders_of fuel l) = fact (List.length l).
Proof.
  revert l; induction fuel as [|fuel IH]; intros l Hlen.
  - destruct l; [reflexivity | cbn in Hlen; lia].
  - destruct l as [|y l]; [reflexivity|].
    cbn [orders_of]. rewrite length_flat_map_sum.
    rewrite (list_sum_const_in _ (fact (List.length l))).
    + rewrite length_selections. cbn [List.length fact]. lia.
    + intros [x r] Hsel. cbn [fst snd]. rewrite length_map.
      pose proof (Permutation_length (selections_perm _ _ _ Hsel)) as Hp.
      cbn [List.length] in *. rewrite IH by lia. f_equal. lia.
Qed.

(** Among the selections of a list without duplicates, one takes [a]. *)
Lemma sum_over_selections (a : nat) (h : list nat -> nat) (c : nat) (l : list nat) :
  NoDup l -> In a l ->
  (forall r, In (a, r) (selections l) -> h r = c) ->
  list_sum (map (fun xr => if (a =? fst xr)%nat then h (snd xr) else 0%nat)
                (selections l)) = c.
Proof.
  revert h; induction l as [|y l IH]; intros h Hnd Hin Hh; [destruct Hin|].
  cbn [selections map fst snd]. rewrite map_map. cbn [fst snd].
  change (list_sum (?x :: ?t)) with (x + list_sum t)%nat.
  apply NoDup_cons_iff in Hnd as [Hy Hnd].
  destruct (Nat.eqb_spec a y) as [->|Hne].
  - rewrite (Hh l) by (cbn [selections]; now left).
    rewrite (list_sum_const_in _ 0%nat).
    + lia.
    + intros [x r] Hsel. cbn [fst snd].
      destruct (Nat.eqb_spec y x) as [->|]; [|reflexivity].
      exfalso. apply Hy.
      apply (Permutation_in x (selections_perm _ _ _ Hsel)). now left.
  - destruct Hin as [->|Hin]; [congruence|].
    rewrite (IH (fun r => h (y :: r)) Hnd Hin); [reflexivity|].
    intros r Hr. apply Hh. cbn [selections]. right.
    apply in_map_iff. exists (a, r). now split.
Qed.

Lemma filter_starts_with_cons a pick x ps :
  filter (starts_with (a :: pick)) (map (cons x) ps)
  = if (a =? x)%nat then map (cons x) (filter (starts_with pick) ps) else [].
Proof.
  induction ps as [|p ps IH]; cbn [map filter].
  - now destruct (a =? x)%nat.
  - rewrite IH.
    change (starts_with (a :: pick) (x :: p))
      with ((a =? x)%nat && starts_with pick p).
    destruct (a =? x)%nat; cbn [andb]; [|reflexivity].
    now destruct (starts_with pick p).
Qed.

Lemma filter_true {A} (p : A -> bool) (l : list A) :
  (forall x, In x l -> p x = true) -> filter p l = l.
Proof.
  induction l as [|x l IH]; intros H; [reflexivity|].
  cbn [filter]. rewrite (H x) by now left.
  f_equal. apply IH. intros y Hy. apply H. now right.
Qed.

(** Of the orders of a list, those that start with a given arrangement of
    [k] of its elements are [(n - k)!]. *)
Lemma orders_of_starting fuel l pick :
  (List.length l <= fuel)%nat -> NoDup l -> NoDup pick -> incl pick l ->
  List.length (filter (starts_with pick) (orders_of fuel l))
  = fact (List.length l - List.length pick).
Proof.
  revert l pick; induction fuel as [|fuel IH]; intros l pick Hlen Hnd Hpick Hincl.
  - destruct l; [|cbn in Hlen; lia].
    destruct pick as [|a pick]; [reflexivity|].
    destruct (Hincl a); now left.
  - destruct pick as [|a pick].
    { rewrite filter_true by reflexivity.
      rewrite length_orders_of by exact Hlen. f_equal. cbn. lia. }
    destruct l as [|y l]; [destruct (Hincl a); now left|].
    cbn [orders_of]. rewrite filter_flat_map, length_flat_map_sum.
    set (h := fun r => List.length (filter (starts_with pick) (orders_of fuel r))).
    rewrite (map_ext _ (fun xr => if (a =? fst xr)%nat then h (snd xr) else 0%nat)).
    2:{ intros [x r]. cbn [fst snd]. rewrite filter_starts_with_cons.
        destruct (a =? x)%nat; [|reflexivity]. unfold h. now rewrite length_map. }
    apply sum_over_selections; [exact Hnd | apply Hincl; now left|].
    intros r Hr. unfold h.
    pose proof (selections_perm _ _ _ Hr) as Hp.
    pose proof (Permutation_length Hp) as Hl. cbn [List.length] in Hl, Hlen |- *.
    apply NoDup_cons_iff in Hpick as [Ha Hpick].
    rewrite IH.
    + f_equal. lia.
    + lia.
    + apply (Permutation_NoDup (Permutation_sym Hp)) in Hnd.
      now apply NoDup_cons_iff in Hnd.
    + exact Hpick.
    + intros z Hz.
      assert (Hz' : In z (a :: r)).
      { apply (Permutation_in z (Permutation_sym Hp)). apply Hincl. now right. }
      destruct Hz' as [<-|Hz']; [contradiction | exact Hz'].
Qed.

Lemma orders_perm n p : In p (orders n) -> Permutation p (List.seq 0 n).
Proof. apply orders_of_perm. now rewrite length_seq. Qed.

Lemma length_orders n : List.length (orders n) = fact n.
Proof. unfold orders. rewrite length_orders_of; now rewrite length_seq. Qed.

(** ** The shuffle a ranking gives *)

Section SortedUnique.
Context {A : Type} (key : A -> Z).

Lemma sorted_unique (l1 l2 : list A) :
  Permutation l1 l2 -> NoDup (map key l1) ->
  StronglySorted (fun a b => key a <= key b) l1 ->
  StronglySorted (fun a b => key a <= key b) l2 ->
  l1 = l2.
Proof.
  revert l2; induction l1 as [|a l1 IH]; intros l2 Hp Hnd Hs1 Hs2.
  - now apply Permutation_nil in Hp.
  - destruct l2 as [|b l2]; [now apply Permutation_sym, Permutation_nil in Hp|].
    apply StronglySorted_inv in Hs1 as [Hs1 Ha].
    apply StronglySorted_inv in Hs2 as [Hs2 Hb].
    assert (E : a = b).
    { assert (Hb1 : In b (a :: l1))
        by (apply (Permutation_in b (Permutation_sym Hp)); now left).
      assert (Ha2 : In a (b :: l2)) by (apply (Permutation_in a Hp); now left).
      destruct Hb1 as [E|Hb1]; [exact E|].
      destruct Ha2 as [E|Ha2]; [now symmetry|].
      pose proof (proj1 (Forall_forall _ _) Ha b Hb1) as H1.
      pose proof (proj1 (Forall_forall _ _) Hb a Ha2) as H2.
      cbv beta in H1, H2.
      cbn [map] in Hnd. apply NoDup_cons_iff in Hnd as [Hn _].
      exfalso. apply Hn. apply in_map_iff. exists b. split; [lia | exact Hb1]. }
    subst b. f_equal. apply IH.
    + now apply Permutation_cons_inv in Hp.
    + cbn [map] in Hnd. now apply NoDup_cons_iff in Hnd.
    + exact Hs1.
    + exact Hs2.
Qed.

End SortedUnique.

Lemma position_here (l : list nat) (x : nat) :
  ~ In x l -> map (fun i => position i (x :: l)) l = map (fun i => S (position i l)) l.
Proof.
  intros Hx. apply map_ext_in. intros i Hi. cbn [position].
  destruct (Nat.eqb_spec x i) as [->|]; [contradiction | reflexivity].
Qed.

Lemma positions_of (l : list nat) :
  NoDup l -> map (fun i => position i l) l = List.seq 0 (List.length l).
Proof.
  induction 1 as [|x l Hx Hnd IH]; [reflexivity|].
  cbn [map List.length]. rewrite seq_cons. f_equal.
  - cbn [position]. now rewrite Nat.eqb_refl.
  - rewrite position_here by exact Hx.
    rewrite <- seq_shift, <- IH, map_map. reflexivity.
Qed.

Lemma NoDup_map_of_nat (l : list nat) : NoDup l -> NoDup (map Z.of_nat l).
Proof.
  induction 1 as [|x l Hx Hnd IH]; cbn [map]; constructor; [|exact IH].
  intros (y & E & Hy)%in_map_iff. apply Nat2Z.inj in E. now subst y.
Qed.

Lemma sorted_from (s n : nat) :
  StronglySorted Z.le (map Z.of_nat (List.seq s n)).
Proof.
  revert s; induction n as [|n IH]; intros s; [constructor|].
  rewrite seq_cons. cbn [map]. constructor; [apply IH|].
  apply Forall_forall. intros z (k & <- & Hk)%in_map_iff.
  apply in_seq in Hk. lia.
Qed.

Lemma sorted_by_key {A} (key : A -> Z) (l : list A) :
  StronglySorted Z.le (map key l) ->
  StronglySorted (fun a b => key a <= key b) l.
Proof.
  induction l as [|a l IH]; intros H; [constructor|].
  cbn [map] in H. apply StronglySorted_inv in H as [Hs Ha].
  constructor; [now apply IH|].
  apply Forall_forall. intros b Hb.
  apply (proj1 (Forall_forall _ _) Ha). now apply in_map.
Qed.

Lemma sorted_leb {A} (key : A -> Z) (l : list A) :
  StronglySorted (fun a b => (key a <=? key b) = true) l ->
  StronglySorted (fun a b => key a <= key b) l.
Proof.
  induction 1 as [|a l Hs IH Ha]; constructor; [exact IH|].
  eapply Forall_impl; [|exact Ha]. intros b Hb. now apply Z.leb_le.
Qed.

Lemma combine_map_seq {A B} (f : nat -> A) (d : B) (l : list B) (s : nat) :
  combine (map f (List.seq s (List.length l))) l
  = map (fun i => (f i, nth (i - s) l d)) (List.seq s (List.length l)).
Proof.
  revert s; induction l as [|b l IH]; intros s; [reflexivity|].
  cbn [List.length]. rewrite seq_cons. cbn [map combine].
  rewrite Nat.sub_diag. cbn [nth]. f_equal. rewrite IH.
  apply map_ext_in. intros i Hi. apply in_seq in Hi.
  replace (i - s)%nat with (S (i - S s)) by lia. reflexivity.
Qed.

(** With the draws [keys_for order], [ORDER BY RANDOM()] leaves the rows in
    the order [order]. *)
Lemma shuffled_by_keys_for (rows : list StockRow) (order : list nat) :
  Permutation order (List.seq 0 (List.length rows)) ->
  shuffled_by (keys_for order) rows = map (row_at rows) order.
Proof.
  intros Hp. unfold shuffled_by, keys_for.
  rewrite (Permutation_length Hp), length_seq.
  rewrite (combine_map_seq _ (mk_row 0 "" 0 "")).
  set (F := fun i : nat => (Z.of_nat (position i order), nth (i - 0) rows (mk_row 0 "" 0 ""))).
  assert (Hnd : NoDup order).
  { apply (Permutation_NoDup (Permutation_sym Hp)), seq_NoDup. }
  assert (Hkeys : map fst (map F order)
                  = map Z.of_nat (List.seq 0 (List.length order))).
  { rewrite map_map. cbn [F fst]. rewrite <- positions_of by exact Hnd.
    now rewrite map_map. }
  rewrite (sorted_unique fst (order_by (fun a b => fst a <=? fst b)
                                (map F (List.seq 0 (List.length rows))))
                         (map F order)).
  - rewrite map_map. apply map_ext. intros i. cbn [F snd].
    unfold row_at. now rewrite Nat.sub_0_r.
  - rewrite order_by_perm. apply Permutation_map. now symmetry.
  - eapply Permutation_NoDup.
    + apply Permutation_map. symmetry. apply order_by_perm.
    + eapply Permutation_NoDup.
      * apply Permutation_map, Permutation_map. exact Hp.
      * rewrite Hkeys. apply NoDup_map_of_nat, seq_NoDup.
  - apply sorted_leb, order_by_sorted.
    + intros a b. destruct (Z.leb_spec (fst a) (fst b)); [now left|].
      right. apply Z.leb_le. lia.
    + intros a b c H1%Z.leb_le H2%Z.leb_le. apply Z.leb_le. lia.
  - apply sorted_by_key. rewrite Hkeys. apply sorted_from.
Qed.

Lemma same_ids_starts_with (f : nat -> Z) (n k : nat) (pick order : list nat) :
  (forall i j, (i < n)%nat -> (j < n)%nat -> f i = f j -> i = j) ->
  (forall i, In i pick -> (i < n)%nat) ->
  (forall i, In i order -> (i < n)%nat) ->
  List.length pick = Nat.min k (List.length order) ->
  same_ids (map f (firstn k order)) (map f pick) = starts_with pick order.
Proof.
  intros Hinj. revert k order.
  induction pick as [|a pick IH]; intros k order Hpick Horder Hlen.
  - cbn [List.length] in Hlen. cbn [starts_with map].
    destruct k; [reflexivity|]. destruct order; [reflexivity | cbn in Hlen; lia].
  - destruct k as [|k]; [cbn in Hlen; lia|].
    destruct order as [|b order]; [cbn in Hlen; lia|].
    cbn [firstn map same_ids starts_with].
    rewrite IH.
    + f_equal. destruct (Nat.eqb_spec a b) as [->|Hne]; [apply Z.eqb_refl|].
      apply Z.eqb_neq. intros E. apply Hne. symmetry.
      apply Hinj; [apply Horder | apply Hpick | exact E]; now left.
    + intros i Hi. apply Hpick. now right.
    + intros i Hi. apply Horder. now right.
    + cbn [List.length] in Hlen. lia.
Qed.

Lemma row_at_id_inj (rows : list StockRow) (i j : nat) :
  NoDup (map id rows) ->
  (i < List.length rows)%nat -> (j < List.length rows)%nat ->
  id (row_at rows i) = id (row_at rows j) -> i = j.
Proof.
  intros Hnd Hi Hj E. unfold row_at in E.
  rewrite <- !(map_nth id) in E.
  apply (proj1 (NoDup_nth (map id rows) (id (mk_row 0 "" 0 ""))) Hnd);
    now rewrite ?length_map.
Qed.

(** Whether a ranking makes the [SELECT] pick given rows is whether it
    starts with them. *)
Lemma selects_starts_with (K : Z) (rows : list StockRow) (pick order : list nat) :
  NoDup (map id rows) -> 0 <= K ->
  incl pick (List.seq 0 (List.length rows)) ->
  List.length pick = Nat.min (Z.to_nat K) (List.length rows) ->
  Permutation order (List.seq 0 (List.length rows)) ->
  selects K rows pick order = starts_with pick order.
Proof.
  intros Hnd HK Hincl Hlen Hp. unfold selects.
  rewrite shuffled_by_keys_for by exact Hp.
  unfold sql_limit. destruct (Z.ltb_spec K 0); [lia|].
  rewrite <- firstn_map, map_map, firstn_map.
  apply (same_ids_starts_with _ (List.length rows)).
  - intros i j Hi Hj. now apply row_at_id_inj.
  - intros i Hi. apply Hincl, in_seq in Hi. lia.
  - intros i Hi. apply (Permutation_in i Hp), in_seq in Hi. lia.
  - now rewrite (Permutation_length Hp), length_seq.
Qed.

(** No selection is favoured: of the [n!] rankings of [n] rows, the ones
    that make the [SELECT] pick given [min(K, n)] rows in a given order are
    [(n - min(K, n))!], whichever rows and order these are. *)
Lemma selects_count (K : Z) (rows : list StockRow) (pick : list nat) :
  NoDup (map id rows) -> 0 <= K ->
  NoDup pick -> incl pick (List.seq 0 (List.length rows)) ->
  List.length pick = Nat.min (Z.to_nat K) (List.length rows) ->
  List.length (filter (selects K rows pick) (orders (List.length rows)))
  = fact (List.length rows - List.length pick).
Proof.
  intros Hnd HK Hpick Hincl Hlen.
  rewrite (filter_ext_in _ (starts_with pick)).
  - unfold orders. rewrite orders_of_starting; rewrite ?length_seq;
      auto using seq_NoDup.
  - intros order Ho. apply selects_starts_with; auto using orders_perm.
Qed.

(** ** The Mutator's claims *)

Lemma change_stock_randomly_overflow (K : Z) (w : World) :
  sqlite_int K = false -> change_stock_randomly K w = (inl OverflowError, w).
Proof.
  intros H. unfold change_stock_randomly, select_random, bind, ret.
  now rewrite H.
Qed.

Lemma stock_trigger_changed {Delay : Type} (K : Z) (url : option string)
    (C : Z) (D : Delay) (R : Z) (w w' : World) (stocks : list StockTuple) :
  change_stock_randomly K w = (inr stocks, w') ->
  exists task,
    stock_trigger K url C D R w
    = (inr (StreamingResponse (csv_header :: map csv_of_stock stocks), task), w') /\
    (truthy url = true -> exists u, url = Some u /\ task = Some (mk_task u stocks C D R)) /\
    (truthy url = false -> task = None).
Proof.
  intros E. pose proof (stock_trigger_response K url C D R w) as H.
  rewrite E in H. rewrite H. eexists. split; [reflexivity|].
  destruct url as [u|]; cbn [truthy].
  - destruct (negb (u =? "")%string); cbn [option_map].
    + split; [intros _; now exists u | discriminate].
    + split; [discriminate | reflexivity].
  - split; [discriminate | reflexivity].
Qed.

Lemma stock_trigger_overflow {Delay : Type} (K : Z) (url : option string)
    (C : Z) (D : Delay) (R : Z) (w : World) :
  sqlite_int K = false -> stock_trigger K url C D R w = (inl OverflowError, w).
Proof.
  intros H. pose proof (stock_trigger_response K url C D R w) as E.
  now rewrite (change_stock_randomly_overflow K w H) in E.
Qed.

Lemma drawn_values_in_range (data : list StockTuple) (c : nat -> Z) (l : list nat) :
  map s1 data = map (fun k => 0 + c k mod (200 - 0 + 1)) l ->
  Forall (fun t => 0 <= s1 t <= 200) data.
Proof.
  intros H. apply Forall_forall. intros t Ht.
  apply (in_map s1) in Ht. rewrite H in Ht.
  apply in_map_iff in Ht as (k & <- & _).
  pose proof (Z.mod_pos_bound (c k) (200 - 0 + 1) ltac:(lia)). lia.
Qed.

Lemma fold_update_one_value (P : Z -> Prop) data r :
  Forall (fun t => P (s1 t)) data -> P (value r) ->
  P (value (fold_left update_one data r)).
Proof.
  intros H; revert r; induction H as [|t data Ht _ IH]; intros r Hr; [exact Hr|].
  cbn [fold_left]. apply IH. unfold update_one.
  now destruct (id r =? s3 t).
Qed.

(** C2, as the code has it.  For every [K] that SQLite can bind and every
    table of [n] rows with unique ids, the Mutator returns normally.  The
    records it returns are those of the head of the table as the draws of
    [RANDOM()], one per row, order it: [min(K, n)] rows when [K >= 0], all
    [n] when [K < 0], of distinct stored ids.  The selection is uniform in
    the rankings: of the [n!] orders in which the draws can rank the rows,
    as many, [(n - min(K, n))!], select any [min(K, n)] rows in any order.
    Each returned record keeps the id and the sku of its stored row (no sku
    is drawn), and carries a new random value in [0..200] and a new random
    timestamp, one draw each per record; and the table afterwards holds, for
    every returned record, the row with exactly these fields. *)
Theorem change_stock_randomly_keeps_id_and_sku (K : Z) (w : World) :
  NoDup (map id (stock w)) ->
  - 2 ^ 63 <= K < 2 ^ 63 ->
  let n := List.length (stock w) in
  exists data w',
    change_stock_randomly K w = (inr data, w') /\
    map s3 data
    = map id (sql_limit K (shuffled_by (random_keys w) (stock w))) /\
    List.length (random_keys w) = n /\
    List.length (orders n) = fact n /\
    (forall order, In order (orders n) -> Permutation order (List.seq 0 n)) /\
    (forall pick, 0 <= K -> NoDup pick -> incl pick (List.seq 0 n) ->
       List.length pick = Nat.min (Z.to_nat K) n ->
       List.length (filter (selects K (stock w) pick) (orders n))
       = fact (n - Nat.min (Z.to_nat K) n)) /\
    NoDup (map s3 data) /\
    incl (map s3 data) (map id (stock w)) /\
    List.length data = (if K <? 0 then n else Nat.min (Z.to_nat K) n) /\
    Forall (fun t => exists r, In r (stock w) /\ id r = s3 t /\ sku r = s0 t) data /\
    ean_src w' = ean_src w /\
    Forall (fun t => 0 <= s1 t <= 200) data /\
    map s1 data = map (fun k => cell (int_src w) k mod 201)
                      (List.seq (drawn (int_src w)) (List.length data)) /\
    map s2 data = map (cell (date_src w))
                      (List.seq (drawn (date_src w)) (List.length data)) /\
    Forall (fun t => In (row_of t) (stock w')) data.
Proof.
  intros Hnd HK n. apply sqlite_int_spec in HK.
  mutator_spec K w; [congruence|]. subst shuffled.
  exists data, w'. split; [reflexivity|].
  split; [exact Hids|].
  split; [unfold random_keys; now rewrite length_map, length_seq|].
  split; [apply length_orders|].
  split; [intros order; apply orders_perm|].
  split.
  { intros pick H0 Hp Hi Hl. rewrite <- Hl. now apply selects_count. }
  split; [now apply (selected_NoDup K w data _ Hperm Hids)|].
  split; [now apply (selected_incl K w data _ Hperm Hids)|].
  split; [exact (selected_length K w data _ Hperm Hids)|].
  split.
  { pose proof (map_pair_eq s3 s0 id sku data _ Hids Hskus) as H.
    eapply Forall_impl; [|exact H].
    intros t (r & Hr & E). exists r. split; [|exact E].
    eapply Permutation_in; [exact Hperm|]. now apply (sql_limit_incl K). }
  split; [exact Hean|].
  split; [exact (drawn_values_in_range data _ _ Hvalues)|].
  split; [exact Hvalues|]. split; [exact Hdates|].
  apply Forall_forall. intros t Ht.
  now apply (returned_stored K w w' data _ Hperm Hids Hstock).
Qed.

Lemma change_stock_randomly_keeps_id_and_sku_witness :
  exists data w',
    change_stock_randomly 3 sample_world_5 = (inr data, w') /\
    List.length data = 3%nat /\
    List.length (filter (selects 3 (stock sample_world_5) [4; 0; 2]%nat) (orders 5))
    = 2%nat /\
    Forall (fun t => 0 <= s1 t <= 200) data /\
    Forall (fun t => In (row_of t) (stock w')) data.
Proof.
  assert (Hnd : NoDup (map id (stock sample_world_5))) by nodup_ids.
  assert (Hn : List.length (stock sample_world_5) = 5%nat)
    by (vm_compute; reflexivity).
  pose proof (change_stock_randomly_keeps_id_and_sku 3 sample_world_5 Hnd
                ltac:(lia)) as H.
  cbv zeta in H. rewrite Hn in H.
  destruct H
    as (data & w' & E & _ & _ & _ & _ & Hcount & _ & _ & Hlen & _ & _ & Hval
        & _ & _ & Hst).
  exists data, w'. split; [exact E|].
  split; [rewrite Hlen; vm_compute; reflexivity|].
  split.
  { rewrite (Hcount [4; 0; 2]%nat); [vm_compute; reflexivity | lia | |
                                    | vm_compute; reflexivity].
    - repeat (apply NoDup_cons; [simpl; intuition discriminate|]). apply NoDup_nil.
    - vm_compute. intros i Hi. simpl in Hi. simpl. intuition lia. }
  split; [exact Hval | exact Hst].
Defined.

(** C2 fails on the code.  The Mutator draws no sku: on the sample table the
    two returned records carry the skus their rows already had, Faker's sku
    source has not moved, and the skus in the table are what they were.  The
    records selected are not always [K]: asked for nine of the five rows, the
    Mutator returns five records.  And not every [K] is served: with
    [K = 2 ^ 63] the parameter of [LIMIT] cannot be bound, the Mutator raises
    [OverflowError] and the table is not touched. *)
Lemma change_stock_randomly_draws_no_sku :
  (exists data w',
     change_stock_randomly 2 sample_world_5 = (inr data, w') /\
     map s3 data = [1; 4] /\
     map s0 data = ["4006381333931"; "4006381333934"] /\
     map sku (filter (fun r => (id r =? 1) || (id r =? 4)) (stock sample_world_5))
     = ["4006381333931"; "4006381333934"] /\
     drawn (ean_src w') = drawn (ean_src sample_world_5) /\
     map sku (stock w') = map sku (stock sample_world_5)) /\
  match fst (change_stock_randomly 9 sample_world_5) with
  | inr data => List.length data = 5%nat
  | inl _ => False
  end /\
  change_stock_randomly (2 ^ 63) sample_world_5 = (inl OverflowError, sample_world_5).
Proof.
  split; [|split; [vm_compute; reflexivity
                  | now apply change_stock_randomly_overflow]].
  destruct (change_stock_randomly 2 sample_world_5) as [[e|data] w'] eqn:E.
  - apply (f_equal (fun p => match fst p with inl _ => true | inr _ => false end)) in E.
    vm_compute in E. discriminate.
  - exists data, w'. split; [reflexivity|].
    assert (E3 : map s3 data = [1; 4]).
    { apply (f_equal (fun p => match fst p with inl _ => [] | inr d => map s3 d end)) in E.
      cbn [fst] in E. rewrite <- E. vm_compute. reflexivity. }
    assert (E0 : map s0 data = ["4006381333931"; "4006381333934"]).
    { apply (f_equal (fun p => match fst p with inl _ => [] | inr d => map s0 d end)) in E.
      cbn [fst] in E. rewrite <- E. vm_compute. reflexivity. }
    assert (Ee : drawn (ean_src w') = drawn (ean_src sample_world_5)).
    { apply (f_equal (fun p => drawn (ean_src (snd p)))) in E.
      cbn [snd] in E. rewrite <- E. vm_compute. reflexivity. }
    assert (Es : map sku (stock w') = map sku (stock sample_world_5)).
    { apply (f_equal (fun p => map sku (stock (snd p)))) in E.
      cbn [snd] in E. rewrite <- E. vm_compute. reflexivity. }
    split; [exact E3|]. split; [exact E0|].
    split; [vm_compute; reflexivity|]. split; [exact Ee | exact Es].
Qed.

(** C6, as the code has it.  For every [K] greater than the number of stored
    rows that SQLite can bind ([K < 2 ^ 63]), the Mutator returns normally,
    with exactly as many records as there are rows, hence no more; and
    [POST /trigger/] answers [200] with one CSV line for each of them after
    the header. *)
Theorem change_stock_randomly_capped (K : Z) (w : World) :
  Z.of_nat (List.length (stock w)) < K -> K < 2 ^ 63 ->
  exists data w',
    change_stock_randomly K w = (inr data, w') /\
    List.length data = List.length (stock w) /\
    (List.length data <= List.length (stock w))%nat /\
    List.length (stock w') = List.length (stock w) /\
    forall (Delay : Type) (url : option string) (C : Z) (D : Delay) (R : Z),
    exists response task,
      stock_trigger K url C D R w = (inr (response, task), w') /\
      http_status (fst (stock_trigger K url C D R w)) = 200 /\
      status_code response = 200 /\
      aborted response = None /\
      List.length (body response) = S (List.length (stock w)).
Proof.
  intros HK Hmax.
  assert (Hint' : sqlite_int K = true) by (apply sqlite_int_spec; lia).
  pose proof (fun Delay url C D R =>
                @stock_trigger_changed Delay K url C D R w) as Htr.
  mutator_spec K w; [congruence|].
  pose proof (selected_length K w data shuffled Hperm Hids) as Hlen.
  destruct (Z.ltb_spec K 0); [lia|].
  rewrite Nat.min_r in Hlen by lia.
  exists data, w'. split; [reflexivity|].
  split; [exact Hlen|]. split; [lia|]. split.
  - now rewrite Hstock, length_map.
  - intros Delay url C D R.
    destruct (Htr Delay url C D R w' data eq_refl) as (task & E & _).
    eexists; exists task. split; [exact E|]. rewrite E.
    split; [reflexivity|]. split; [reflexivity|]. split; [reflexivity|].
    cbn. now rewrite length_map, Hlen.
Qed.

Lemma change_stock_randomly_capped_witness :
  exists data w',
    change_stock_randomly 9 sample_world_5 = (inr data, w') /\
    List.length data = 5%nat.
Proof.
  destruct (change_stock_randomly_capped 9 sample_world_5
              ltac:(vm_compute; reflexivity) ltac:(lia))
    as (data & w' & E & Hlen & _).
  exists data, w'. split; [exact E|]. rewrite Hlen. vm_compute. reflexivity.
Defined.

(** C6 fails on the code for the [K] that SQLite cannot bind: with
    [K = 2 ^ 63], greater than the five rows of the sample table, the
    Mutator raises [OverflowError] and [POST /trigger/] answers [500]. *)
Lemma change_stock_randomly_raises_above_int64 :
  Z.of_nat (List.length (stock sample_world_5)) < 2 ^ 63 /\
  fst (change_stock_randomly (2 ^ 63) sample_world_5) = inl OverflowError /\
  http_status (fst (stock_trigger (2 ^ 63) None 1 0 0 sample_world_5)) = 500.
Proof.
  split; [vm_compute; reflexivity|]. split.
  - now rewrite change_stock_randomly_overflow.
  - now rewrite stock_trigger_overflow.
Qed.

(** C8.  Every call of the Mutator leaves the ids of the table as they were,
    row for row: no row is inserted or deleted and every selected row keeps
    its id.  Every row whose id is not among the returned ones is unchanged
    in every field (when the Mutator raises, no record is returned and the
    whole state is as it was).  [POST /trigger/] changes the table only
    through the Mutator, [GET /] and [POST /receiver/] do not change it at
    all; the reset of [POST /initialize-stock/] is what empties it. *)
Theorem change_stock_randomly_frame (K : Z) (w : World) :
  let '(result, w') := change_stock_randomly K w in
  let data := match result with inr data => data | inl _ => [] end in
  map id (stock w') = map id (stock w) /\
  (forall k r, nth_error (stock w) k = Some r ->
               ~ In (id r) (map s3 data) -> nth_error (stock w') k = Some r) /\
  incl (map s3 data) (map id (stock w')) /\
  sqlite_seq w' = sqlite_seq w /\
  (forall (Delay : Type) (url : option string) (C : Z) (D : Delay) (R : Z),
     snd (stock_trigger K url C D R w) = w') /\
  snd (read_root w) = w /\
  (forall content code, snd (receiver content code w) = w) /\
  stock (snd (reset_stock w)) = [] /\
  (forall e, result = inl e -> w' = w).
Proof.
  pose proof (fun Delay url C D R =>
                @stock_trigger_world Delay K url C D R w) as Htr.
  mutator_spec K w; cbn [snd] in Htr; cbv zeta.
  - subst w'. split; [reflexivity|]. split; [intros k r Hk _; exact Hk|].
    split; [intros i []|]. split; [reflexivity|]. split; [exact Htr|].
    repeat split.
  - pose proof (ids_kept w w' data Hstock) as Hkept.
    split; [exact Hkept|].
    split; [intros k r; now apply (others_kept w w' data Hstock)|].
    split; [rewrite Hkept; now apply (selected_incl K w data shuffled)|].
    split; [exact Hseq|].
    split; [exact Htr|].
    split; [reflexivity|]. split; [reflexivity|]. split; [reflexivity|].
    discriminate.
Qed.

(** C10, as the code has it.  For every negative [number_to_change] that
    SQLite can bind ([K >= - 2 ^ 63]) and every table with unique ids, the
    Mutator returns normally with one record for every stored row (the
    negative [LIMIT] bounds nothing); every row of the table is rewritten to
    the record returned for it; and [POST /trigger/] answers [200] with one
    CSV line per stored row after the header. *)
Theorem change_stock_randomly_negative (K : Z) (w : World) :
  - 2 ^ 63 <= K -> K < 0 ->
  NoDup (map id (stock w)) ->
  exists data w',
    change_stock_randomly K w = (inr data, w') /\
    Permutation (map s3 data) (map id (stock w)) /\
    List.length data = List.length (stock w) /\
    (forall t, In t data -> In (row_of t) (stock w')) /\
    (forall r, In r (stock w') -> exists t, In t data /\ r = row_of t) /\
    forall (Delay : Type) (url : option string) (C : Z) (D : Delay) (R : Z),
    exists response task,
      stock_trigger K url C D R w = (inr (response, task), w') /\
      http_status (fst (stock_trigger K url C D R w)) = 200 /\
      status_code response = 200 /\
      aborted response = None /\
      List.length (body response) = S (List.length (stock w)).
Proof.
  intros Hmin HK Hnd.
  assert (Hint' : sqlite_int K = true) by (apply sqlite_int_spec; lia).
  pose proof (fun Delay url C D R =>
                @stock_trigger_changed Delay K url C D R w) as Htr.
  mutator_spec K w; [congruence|].
  pose proof (selected_length K w data shuffled Hperm Hids) as Hlen.
  destruct (Z.ltb_spec K 0) as [_|]; [|lia].
  exists data, w'. split; [reflexivity|].
  split.
  { rewrite Hids. unfold sql_limit. destruct (Z.ltb_spec K 0); [|lia].
    now apply Permutation_map. }
  split; [exact Hlen|].
  split; [intros t; now apply (returned_stored K w w' data shuffled)|].
  split; [intros r; now apply (stored_returned K w w' data shuffled)|].
  intros Delay url C D R.
  destruct (Htr Delay url C D R w' data eq_refl) as (task & E & _).
  eexists; exists task. split; [exact E|]. rewrite E.
  split; [reflexivity|]. split; [reflexivity|]. split; [reflexivity|].
  cbn. now rewrite length_map, Hlen.
Qed.

Lemma change_stock_randomly_negative_witness :
  exists data w',
    change_stock_randomly (-1) sample_world_5 = (inr data, w') /\
    Permutation (map s3 data) [1; 2; 3; 4; 5].
Proof.
  assert (Hnd : NoDup (map id (stock sample_world_5))) by nodup_ids.
  destruct (change_stock_randomly_negative (-1) sample_world_5
              ltac:(lia) ltac:(lia) Hnd) as (data & w' & E & Hp & _).
  exists data, w'. split; [exact E | exact Hp].
Defined.

(** C10 fails on the code for the negative [K] that SQLite cannot bind:
    with [number_to_change = - 2 ^ 63 - 1] the Mutator raises
    [OverflowError], no row is selected or updated, and [POST /trigger/]
    answers [500]. *)
Lemma change_stock_randomly_raises_below_int64 :
  - 2 ^ 63 - 1 < 0 /\
  change_stock_randomly (- 2 ^ 63 - 1) sample_world_5
  = (inl OverflowError, sample_world_5) /\
  http_status (fst (stock_trigger (- 2 ^ 63 - 1) None 1 0 0 sample_world_5)) = 500.
Proof.
  split; [lia|]. split.
  - now apply change_stock_randomly_overflow.
  - now rewrite stock_trigger_overflow.
Qed.

(** ** [POST /trigger/] with a concurrency of zero *)

(** C5, as the code has it.  [POST /trigger/] does not reject a concurrency
    of zero: it does what it does for any other concurrency [C'], with the
    same answer and the same table afterwards.  When SQLite can bind
    [number_to_change], it mutates the table and answers [200 text/csv]
    with the same body; when a webhook URL is given, the background run of
    [send_requests] it schedules raises [ValueError] before issuing any
    request, on any network, and the response does not tell.  When SQLite
    cannot bind [number_to_change], the handler raises [OverflowError] (a
    [500]) for zero as for any other concurrency, no task is scheduled and
    the table is not touched. *)
Theorem stock_trigger_accepts_zero_concurrency {Delay : Type}
    (net : Network) (K : Z) (url : option string) (D : Delay) (R C' : Z)
    (w : World) :
  let '(result, w') := stock_trigger K url 0 D R w in
  w' = snd (stock_trigger K url C' D R w) /\
  http_status result = http_status (fst (stock_trigger K url C' D R w)) /\
  http_status result <> 422 /\
  match result with
  | inr (response, task) =>
      - 2 ^ 63 <= K < 2 ^ 63 /\
      status_code response = 200 /\
      media_type response = "text/csv" /\
      aborted response = None /\
      (exists task', fst (stock_trigger K url C' D R w) = inr (response, task')) /\
      (truthy url = true ->
       exists t, task = Some t /\ run_task net t = ([], Some ValueError)) /\
      (truthy url = false -> task = None)
  | inl e =>
      ~ (- 2 ^ 63 <= K < 2 ^ 63) /\
      e = OverflowError /\
      w' = w /\
      fst (stock_trigger K url C' D R w) = inl e
  end.
Proof.
  pose proof (stock_trigger_response K url 0 D R w) as H0.
  pose proof (stock_trigger_response K url C' D R w) as H1.
  mutator_spec K w; rewrite H0, H1; cbn [fst snd http_status].
  - subst raised w'. split; [reflexivity|]. split; [reflexivity|].
    split; [discriminate|].
    split; [|now repeat split].
    intros HK%sqlite_int_spec. congruence.
  - split; [reflexivity|]. split; [reflexivity|]. split; [discriminate|].
    split; [now apply sqlite_int_spec|].
    split; [reflexivity|]. split; [reflexivity|]. split; [reflexivity|].
    split; [eexists; reflexivity|].
    split.
    + intros Hu; rewrite Hu. destruct url as [u|]; [|discriminate].
      eexists; split; [reflexivity|]. apply send_requests_zero_concurrency.
    + now intros ->.
Qed.

(** C5 fails on the code: with concurrency zero and a webhook URL the
    request is answered [200], not with a validation failure, and the failure
    happens later, inside the background task. *)
Lemma zero_concurrency_is_not_rejected :
  match fst (stock_trigger 1 (Some "http://hook.test/") 0 0 0 sample_world) with
  | inr (response, task) =>
      status_code response = 200 /\
      status_code response <> 422 /\
      option_map (run_task quiet_network) task = Some ([], Some ValueError)
  | inl _ => False
  end.
Proof. vm_compute. repeat split; discriminate. Qed.

(** ** [GET /] *)

(** C9.  For every table, [GET /] answers [200 text/csv] without changing
    anything; the first chunk is the header line
    [id,sku,value,modified_since]; after it comes exactly one line per stored
    row, its four fields joined by commas; and the rows come in ascending
    order of [modified_since]. *)
Theorem read_root_streams_sorted_csv (w : World) :
  let '(response, w') := read_root w in
  w' = w /\
  status_code response = 200 /\
  media_type response = "text/csv" /\
  exists rows,
    body response
    = ("id,sku,value,modified_since" ++ nl)
        :: map (fun row =>
                  join "," [str_int (id row); sku row; str_int (value row);
                            modified_since row] ++ nl) rows /\
    Permutation rows (stock w) /\
    List.length (body response) = S (List.length (stock w)) /\
    StronglySorted
      (fun a b => String.leb (modified_since a) (modified_since b) = true) rows.
Proof.
  unfold read_root, select_by_modified_since, bind, get_stock, ret.
  split; [reflexivity|]. split; [reflexivity|]. split; [reflexivity|].
  eexists. split; [reflexivity|].
  split; [apply order_by_perm|]. split.
  - cbn. now rewrite length_map, order_by_length.
  - apply order_by_sorted.
    + intros a b. apply String.leb_total.
    + intros a b c. apply string_leb_trans.
Qed.

(** ** More on the Mutator and [POST /trigger/] *)

(** X11.  The Mutator selects nothing when it is asked for zero records, or
    when the table is empty and SQLite can bind the number asked for: it
    returns no record and leaves the table and the sequence as they are,
    and [POST /trigger/] answers [200] and streams the header alone. *)
Theorem change_stock_randomly_nothing_selected (K : Z) (w : World) :
  K = 0 \/ (stock w = [] /\ - 2 ^ 63 <= K < 2 ^ 63) ->
  exists w',
    change_stock_randomly K w = (inr [], w') /\
    stock w' = stock w /\
    sqlite_seq w' = sqlite_seq w /\
    forall (Delay : Type) (url : option string) (C : Z) (D : Delay) (R : Z),
    exists task,
      stock_trigger K url C D R w
      = (inr (StreamingResponse [csv_header], task), w').
Proof.
  intros H.
  assert (Hint' : sqlite_int K = true).
  { apply sqlite_int_spec. destruct H as [-> | [_ H]]; lia. }
  pose proof (fun Delay url C D R =>
                @stock_trigger_changed Delay K url C D R w) as Htr.
  mutator_spec K w; [congruence|].
  assert (Hnil : sql_limit K shuffled = []).
  { destruct H as [-> | [Hw _]]; [reflexivity|].
    rewrite Hw in Hperm. apply Permutation_sym, Permutation_nil in Hperm.
    rewrite Hperm.
    unfold sql_limit. destruct (K <? 0); [reflexivity | apply firstn_nil]. }
  rewrite Hnil in Hids. cbn [map] in Hids. apply map_eq_nil in Hids. subst data.
  exists w'. split; [reflexivity|]. split; [|split; [exact Hseq|]].
  - rewrite Hstock. cbn [fold_left]. apply map_id.
  - intros Delay url C D R.
    destruct (Htr Delay url C D R w' [] eq_refl) as (task & E & _).
    exists task. exact E.
Qed.

Lemma change_stock_randomly_nothing_selected_witness :
  (exists w', change_stock_randomly 0 sample_world_5 = (inr [], w')) /\
  (exists w', change_stock_randomly 4 sample_world = (inr [], w')).
Proof.
  split.
  - destruct (change_stock_randomly_nothing_selected 0 sample_world_5
                ltac:(left; reflexivity)) as (w' & E & _).
    now exists w'.
  - destruct (change_stock_randomly_nothing_selected 4 sample_world
                ltac:(right; split; [reflexivity | lia])) as (w' & E & _).
    now exists w'.
Defined.



(** ** What holds in every state *)

Lemma filled_NoDup n w : filled n w -> NoDup (map id (stock w)).
Proof.
  intros [Hids _]. rewrite Hids.
  apply NoDup_map_NoDup_ForallPairs; [|apply seq_NoDup].
  intros x y _ _ H. lia.
Qed.

Lemma filled_length n w : filled n w -> List.length (stock w) = n.
Proof.
  intros [Hids _].
  now rewrite <- (length_map id), Hids, length_map, length_seq.
Qed.

(** The Mutator keeps a filled table filled and values in range in range. *)
Lemma change_stock_randomly_keeps_state K n w :
  filled n w -> Forall (fun r => 0 <= value r <= 200) (stock w) ->
  filled n (snd (change_stock_randomly K w)) /\
  Forall (fun r => 0 <= value r <= 200) (stock (snd (change_stock_randomly K w))).
Proof.
  intros [Hf Hq] Hv. mutator_spec K w; cbn [snd].
  { subst w'. split; [now split | exact Hv]. }
  split.
  - split; [now rewrite (ids_kept w w' data Hstock) | now rewrite Hseq].
  - rewrite Hstock. apply Forall_forall. intros r' (r & <- & Hr)%in_map_iff.
    apply (fold_update_one_value (fun v => 0 <= v <= 200)).
    + exact (drawn_values_in_range data _ _ Hvalues).
    + exact (proj1 (Forall_forall _ _) Hv r Hr).
Qed.

Lemma reachable_state w :
  reachable w ->
  exists n, filled n w /\ Forall (fun r => 0 <= value r <= 200) (stock w).
Proof.
  induction 1 as [amount w | Delay K url C D R w _ IH | w _ IH | content code w _ IH].
  - exists (generated amount 1000). split; [apply initialize_stock_always_filled|].
    pose proof (initialize_stock_rows amount w) as H.
    destruct (initialize_stock amount w) as [response w']. cbv zeta in H.
    cbn [snd]. rewrite (proj1 H). apply Forall_forall.
    intros r (j & <- & _)%in_map_iff.
    unfold generated_row, stored_row, appended_at. cbn [value fst snd].
    match goal with |- _ <= ?a mod 201 <= _ =>
      pose proof (Z.mod_pos_bound a 201 ltac:(lia)); lia end.
  - destruct IH as (n & Hf & Hv). exists n.
    rewrite stock_trigger_world. now apply change_stock_randomly_keeps_state.
  - exact IH.
  - exact IH.
Qed.

(** X14.  In every state the service can reach from a
    [POST /initialize-stock/], whatever requests follow, the table holds the
    ids [1..n] for some [n], in rowid order and without a gap or a repeat;
    the id sequence stands at [n]; and every value is in [0..200]. *)
Theorem reachable_table_invariant (w : World) :
  reachable w ->
  map id (stock w) = map Z.of_nat (List.seq 1 (List.length (stock w))) /\
  sqlite_seq w = Z.of_nat (List.length (stock w)) /\
  NoDup (map id (stock w)) /\
  Forall (fun r => 0 <= value r <= 200) (stock w).
Proof.
  intros Hr. destruct (reachable_state w Hr) as (n & Hf & Hv).
  rewrite (filled_length n w Hf). destruct Hf as [Hids Hq].
  split; [exact Hids|]. split; [exact Hq|].
  split; [now apply (filled_NoDup n w) | exact Hv].
Qed.

Lemma reachable_table_invariant_witness :
  let w := snd (stock_trigger 2 None 1 0 0 sample_world_5) in
  map id (stock w) = map Z.of_nat (List.seq 1 (List.length (stock w))) /\
  Forall (fun r => 0 <= value r <= 200) (stock w).
Proof.
  pose proof (reachable_table_invariant
                (snd (stock_trigger 2 None 1 0 0 sample_world_5))
                (reach_trigger Z 2 None 1 0 0 sample_world_5
                   (reach_initialize 5 sample_world))) as H.
  split; [exact (proj1 H) | exact (proj2 (proj2 (proj2 H)))].
Defined.

(** X15.  After [POST /initialize-stock/] with an amount
    [1 <= N < 2 ^ 44 * 1000] that [1000] does not divide, a [POST /trigger/]
    for [0 <= K <= N] records answers [200] and streams exactly [K] lines
    after the header, for [K] records of distinct ids, all within [1..N],
    with values in [0..200]; and the table still holds the ids [1..N]. *)
Theorem initialize_then_trigger {Delay : Type} (N K : Z) (url : option string)
    (C : Z) (D : Delay) (R : Z) (w : World) :
  1 <= N < 2 ^ 44 * 1000 -> N mod 1000 <> 0 -> 0 <= K <= N ->
  exists response task w' stocks,
    stock_trigger K url C D R (snd (initialize_stock N w))
    = (inr (response, task), w') /\
    status_code response = 200 /\
    body response = csv_header :: map csv_of_stock stocks /\
    Z.of_nat (List.length stocks) = K /\
    NoDup (map s3 stocks) /\
    Forall (fun t => 1 <= s3 t <= N /\ 0 <= s1 t <= 200) stocks /\
    map id (stock w') = map Z.of_nat (List.seq 1 (Z.to_nat N)).
Proof.
  intros HN Hmod HK.
  pose proof (initialize_stock_always_filled N w) as Hf.
  rewrite generated_positive in Hf by (unfold exact_amount; lia).
  destruct (Z.eqb_spec (N mod 1000) 0) as [E|_]; [contradiction|].
  set (w1 := snd (initialize_stock N w)) in *.
  pose proof (fun stocks w' =>
                stock_trigger_changed K url C D R w1 w' stocks) as H.
  pose proof (filled_NoDup _ _ Hf) as Hnd.
  pose proof (filled_length _ _ Hf) as Hlen.
  assert (Hint' : sqlite_int K = true) by (apply sqlite_int_spec; lia).
  mutator_spec K w1; [congruence|].
  destruct (H data w' eq_refl) as (task & E & _).
  eexists; exists task, w', data.
  split; [exact E|]. split; [reflexivity|]. split; [reflexivity|].
  split.
  { rewrite (selected_length K w1 data shuffled Hperm Hids), Hlen.
    destruct (Z.ltb_spec K 0); lia. }
  split; [now apply (selected_NoDup K w1 data shuffled)|].
  split.
  { pose proof (drawn_values_in_range data _ _ Hvalues) as Hv.
    apply Forall_forall. intros t Ht.
    split; [|exact (proj1 (Forall_forall _ _) Hv t Ht)].
    pose proof (selected_incl K w1 data shuffled Hperm Hids (s3 t)
                  (in_map s3 _ _ Ht)) as Hin.
    rewrite (proj1 Hf) in Hin. apply in_map_iff in Hin as (j & <- & Hj%in_seq). lia. }
  rewrite (ids_kept w1 w' data Hstock). exact (proj1 Hf).
Qed.

Lemma initialize_then_trigger_witness :
  exists response task w',
    stock_trigger 3 None 1 0 0 (snd (initialize_stock 5 sample_world))
    = (inr (response, task), w') /\
    List.length (body response) = 4%nat /\ map id (stock w') = [1; 2; 3; 4; 5].
Proof.
  destruct (initialize_then_trigger 5 3 None 1 0 0 sample_world
              ltac:(lia) ltac:(vm_compute; discriminate) ltac:(lia))
    as (response & task & w' & stocks & E & _ & Hb & Hk & _ & _ & Hids).
  exists response, task, w'. split; [exact E|].
  split; [|exact Hids].
  rewrite Hb. cbn [List.length]. rewrite length_map. lia.
Defined.

(** ** The two renderings of a timestamp *)

Lemma append_assoc (a b c : string) : ((a ++ b) ++ c = a ++ (b ++ c))%string.
Proof. induction a as [|x a IH]; simpl; [reflexivity | now rewrite IH]. Qed.

Lemma append_inv_head (a b c : string) : (a ++ b = a ++ c)%string -> b = c.
Proof.
  induction a as [|x a IH]; simpl; [trivial|].
  intros H; injection H as H. now apply IH.
Qed.

Lemma isoformat_sep_split (sep : string) (d : datetime) :
  isoformat_sep sep d
  = ((zfill 4 (year d) ++ "-" ++ zfill 2 (month d) ++ "-" ++ zfill 2 (day d))
     ++ sep
     ++ (zfill 2 (hour d) ++ ":" ++ zfill 2 (minute d) ++ ":" ++ zfill 2 (second d)
         ++ (if (microsecond d =? 0)%Z then ""
             else "." ++ zfill 6 (microsecond d))))%string.
Proof. unfold isoformat_sep. now rewrite !append_assoc. Qed.

(** X16.  The line [POST /trigger/] streams for a record and the line
    [GET /] streams for the row stored for it (and likewise the timestamp
    sent to the webhook and the timestamp stored) are the same text but for
    one character: the date and the time are separated by [T] in the first
    and by a space in the second.  So the two lines are never equal. *)
Theorem trigger_and_root_lines_differ_in_separator (t : StockTuple) :
  (exists date time,
     isoformat (s2 t) = (date ++ "T" ++ time)%string /\
     modified_since (row_of t) = (date ++ " " ++ time)%string) /\
  (exists before after,
     csv_of_stock t = (before ++ "T" ++ after)%string /\
     csv_of_row (row_of t) = (before ++ " " ++ after)%string) /\
  csv_of_stock t <> csv_of_row (row_of t).
Proof.
  pose proof (isoformat_sep_split "T" (s2 t)) as HT.
  pose proof (isoformat_sep_split " " (s2 t)) as HS.
  set (date := (zfill 4 (year (s2 t)) ++ "-" ++ zfill 2 (month (s2 t)) ++ "-"
                ++ zfill 2 (day (s2 t)))%string) in *.
  set (time := (zfill 2 (hour (s2 t)) ++ ":" ++ zfill 2 (minute (s2 t)) ++ ":"
                ++ zfill 2 (second (s2 t))
                ++ (if (microsecond (s2 t) =? 0)%Z then ""
                    else "." ++ zfill 6 (microsecond (s2 t))))%string) in *.
  set (before := (str_int (s3 t) ++ "," ++ s0 t ++ "," ++ str_int (s1 t) ++ ","
                  ++ date)%string).
  assert (Hstock : csv_of_stock t = (before ++ "T" ++ (time ++ nl))%string).
  { unfold csv_of_stock, join, isoformat. rewrite HT. cbn [String.concat].
    unfold before. now rewrite !append_assoc. }
  assert (Hrow : csv_of_row (row_of t) = (before ++ " " ++ (time ++ nl))%string).
  { unfold csv_of_row, row_of, join, adapt_datetime.
    cbn [id sku value modified_since]. rewrite HS. cbn [String.concat].
    unfold before. now rewrite !append_assoc. }
  split; [|split].
  - exists date, time. split; [exact HT | exact HS].
  - exists before, (time ++ nl)%string. split; [exact Hstock | exact Hrow].
  - rewrite Hstock, Hrow. intros E. apply append_inv_head in E. discriminate E.
Qed.

(** ** [GET /] after [POST /trigger/] *)

Lemma read_root_body w :
  body (fst (read_root w))
  = csv_header
      :: map csv_of_row
           (order_by (fun a b => String.leb (modified_since a) (modified_since b))
                     (stock w)).
Proof. reflexivity. Qed.

(** X17.  In every reachable state, and for every number of records that
    SQLite can bind, what [POST /trigger/] returns is what [GET /] shows
    next: for every record the trigger returned, the CSV of [GET /] has the
    line of the row stored for it, with the id, the sku, the value and the
    timestamp of the record; and that CSV has as many lines as before the
    trigger. *)
Theorem read_root_shows_triggered_rows {Delay : Type} (K : Z)
    (url : option string) (C : Z) (D : Delay) (R : Z) (w : World) :
  reachable w -> - 2 ^ 63 <= K < 2 ^ 63 ->
  exists response task w' stocks,
    stock_trigger K url C D R w = (inr (response, task), w') /\
    body response = csv_header :: map csv_of_stock stocks /\
    (forall t, In t stocks ->
       In (join "," [str_int (s3 t); s0 t; str_int (s1 t); adapt_datetime (s2 t)]
           ++ nl)
          (body (fst (read_root w')))) /\
    List.length (body (fst (read_root w')))
    = List.length (body (fst (read_root w))).
Proof.
  intros Hr HK%sqlite_int_spec. destruct (reachable_state w Hr) as (n & Hf & _).
  pose proof (filled_NoDup n w Hf) as Hnd.
  pose proof (fun stocks w' =>
                stock_trigger_changed K url C D R w w' stocks) as H.
  mutator_spec K w; [congruence|].
  destruct (H data w' eq_refl) as (task & E & _).
  eexists; exists task, w', data.
  split; [exact E|]. split; [reflexivity|]. split.
  - intros t Ht. rewrite read_root_body. right.
    change (join "," [str_int (s3 t); s0 t; str_int (s1 t); adapt_datetime (s2 t)] ++ nl)%string
      with (csv_of_row (row_of t)).
    apply in_map. eapply Permutation_in; [symmetry; apply order_by_perm|].
    now apply (returned_stored K w w' data shuffled).
  - rewrite !read_root_body. cbn [List.length].
    now rewrite !length_map, !order_by_length, Hstock, length_map.
Qed.

Lemma read_root_shows_triggered_rows_witness :
  exists response task w',
    stock_trigger 2 None 1 0 0 sample_world_5 = (inr (response, task), w') /\
    List.length (body (fst (read_root w'))) = 6%nat.
Proof.
  destruct (read_root_shows_triggered_rows 2 None 1 0 0 sample_world_5
              (reach_initialize 5 sample_world) ltac:(lia))
    as (response & task & w' & stocks & E & _ & _ & Hlen).
  exists response, task, w'. split; [exact E|].
  rewrite Hlen. reflexivity.
Defined.
